(** * generate_miescattering_water: grids, identifiers and the per-radius run

    A shallow embedding of the script [generate_miescattering_water.py].

    Numbers.  The script computes with IEEE doubles.  The radius grid only
    involves quarter multiples of powers of ten, which are modelled by the
    exact rationals [Q] they denote, so that the grid can be evaluated.  The
    frequency grid and the sub-radius factors go through [log10] and [10 **],
    which are modelled on the real numbers [R].  Every comparison the script
    takes on these numbers (the ceiling in the multipliers, the sort, the
    5 mm cut) is decided with a margin far above the rounding error of a
    double, so the exact model takes the same branches. *)

From Stdlib Require Import Ascii String.
From Stdlib Require Import ZArith QArith Qround Qabs Qreals Reals Lra List Bool Lia Sorting Orders Mergesort.
Import ListNotations.

Local Open Scope Q_scope.

(** ** The droplet radius grid *)

Module RadiusGrid.

(** [np.ceil(10 ** x * 4)] at [x = j / 10]: the least integer [n] with
    [4 * 10^(j/10) <= n], that is with [4^10 * 10^j <= n^10].  The search
    starts at [n] and gives up after [fuel] steps. *)
Fixpoint ceil_search (fuel : nat) (j : nat) (n : Z) : Z :=
  match fuel with
  | O => n
  | S fuel' =>
      if (4 ^ 10 * 10 ^ Z.of_nat j <=? n ^ 10)%Z then n
      else ceil_search fuel' j (n + 1)%Z
  end.

Definition ceil_4_pow10 (j : nat) : Z := ceil_search 64 j 0.

(** [np.arange(0, 1, 0.1)] has the ten entries [j / 10], [j = 0 .. 9]. *)
Definition arange_0_1_tenth : list nat := seq 0 10.

(** [a = np.ceil(10 ** np.arange(0, 1, 0.1) * 4) / 4] *)
Definition a : list Q :=
  map (fun j => inject_Z (ceil_4_pow10 j) / 4) arange_0_1_tenth.

(** [np.arange(-7, -2.0)] has the five entries -7 .. -3. *)
Definition arange_m7_m2 : list Z := map (fun k => (Z.of_nat k - 7)%Z) (seq 0 5).

(** [b = 10 ** (np.arange(-7, -2.0))] *)
Definition b : list Q := map (fun k => Qpower 10 k) arange_m7_m2.

(** [np.outer(a, b)], one row per entry of [a]. *)
Definition outer (xs ys : list Q) : list (list Q) :=
  map (fun x => map (fun y => x * y) ys) xs.

(** [np.ravel] of a matrix: row-major flattening. *)
Definition ravel (m : list (list Q)) : list Q := List.concat m.

Module QOrder <: TotalLeBool.

Definition t := Q.
Definition leb := Qle_bool.

Lemma leb_total : forall x y, leb x y = true \/ leb y x = true.
Proof.
  intros x y. unfold leb. rewrite !Qle_bool_iff.
  destruct (Qlt_le_dec x y) as [H|H]; [left; apply Qlt_le_weak; exact H | right; exact H].
Qed.

End QOrder.

Module QSort := Sort QOrder.

(** [np.sort]: ascending. *)
Definition np_sort (l : list Q) : list Q := QSort.sort l.

(** The upper bound of the cut, [5e-3] m. *)
Definition r_max : Q := 5 # 1000.

(** [x < y] on floats, as a boolean mask entry. *)
Definition Qlt_bool (x y : Q) : bool := negb (Qle_bool y x).

(** Lines 61 and 64 for arbitrary multiplier and decade sequences:
    [np.sort(np.ravel(np.outer(a, b)))], then the boolean-mask selection
    [droplet_radii[droplet_radii < 5e-3]]. *)
Definition build_radius_grid (xs ys : list Q) : list Q :=
  let droplet_radii := np_sort (ravel (outer xs ys)) in
  filter (fun r => Qlt_bool r r_max) droplet_radii.

Definition droplet_radii : list Q := build_radius_grid a b.

(** The construction in the words of the specification: like
    [build_radius_grid], with a deduplication between the sort and the cut.
    On a sorted sequence equal values are neighbours. *)
Fixpoint dedup_sorted (l : list Q) : list Q :=
  match l with
  | [] => []
  | x :: tl =>
      match tl with
      | [] => [x]
      | y :: _ => if Qeq_bool x y then dedup_sorted tl else x :: dedup_sorted tl
      end
  end.

Definition spec_build_radius_grid (xs ys : list Q) : list Q :=
  filter (fun r => Qlt_bool r r_max) (dedup_sorted (np_sort (ravel (outer xs ys)))).

(** The candidates the cut removes. *)
Definition removed_candidates (xs ys : list Q) : list Q :=
  filter (fun r => negb (Qlt_bool r r_max)) (np_sort (ravel (outer xs ys))).

(** A strictly ascending sequence, as a check on neighbours. *)
Fixpoint strictly_increasingb (l : list Q) : bool :=
  match l with
  | [] => true
  | x :: tl =>
      match tl with
      | [] => true
      | y :: _ => Qlt_bool x y && strictly_increasingb tl
      end
  end.


End RadiusGrid.

(** ** Python string formatting and paths *)

Module PyFormat.

Local Open Scope string_scope.

Definition digit_char (d : Z) : ascii := ascii_of_nat (48 + Z.to_nat d).

(** The [w] low decimal digits of [n], most significant first. *)
Fixpoint digits (w : nat) (n : Z) (acc : string) : string :=
  match w with
  | O => acc
  | S w' => digits w' (n / 10)%Z (String (digit_char (n mod 10)%Z) acc)
  end.

(** Number of decimal digits of a positive integer (1 for [n <= 9]). *)
Fixpoint count_digits (fuel : nat) (n : Z) : nat :=
  match fuel with
  | O => 1
  | S fuel' => if (n <? 10)%Z then 1%nat else S (count_digits fuel' (n / 10)%Z)
  end.

Definition num_digits (n : Z) : nat := count_digits (Z.to_nat (Z.log2 n)) n.

(** [floor (log10 x)] for [x > 0]: the quotient of the digit counts is off by
    at most one, which the comparison with the next power of ten settles. *)
Definition floor_log10 (x : Q) : Z :=
  let e0 := (Z.of_nat (num_digits (Qnum x)) - Z.of_nat (num_digits (Zpos (Qden x))) - 1)%Z in
  if Qle_bool (Qpower 10 (e0 + 1)) x then (e0 + 1)%Z else e0.

(** Round to the nearest integer, ties to even. *)
Definition round_half_even (x : Q) : Z :=
  let f := Qfloor x in
  match Qcompare (x - inject_Z f) (1 # 2) with
  | Lt => f
  | Gt => (f + 1)%Z
  | Eq => if Z.even f then f else (f + 1)%Z
  end.

(** The exponent field of the [e] presentation: a sign and at least two
    digits. *)
Definition exponent_field (e : Z) : string :=
  let m := Z.abs e in
  String (if (e <? 0)%Z then "-"%char else "+"%char)
         (digits (Nat.max 2 (num_digits m)) m "").

(** [format(x, ".<prec>e")] for a finite float [x]: one digit, a point,
    [prec] digits, the exponent.  A minimum width of 1, as in [1.5e], never
    pads. *)
Definition format_e (prec : nat) (x : Q) : string :=
  let ax := Qabs x in
  let sign := if Qle_bool 0 x then "" else "-" in
  let '(m, e) :=
    if Qeq_bool ax 0 then (0%Z, 0%Z)
    else
      let e := floor_log10 ax in
      let m := round_half_even (ax * Qpower 10 (Z.of_nat prec - e)) in
      if (10 ^ Z.of_nat (S prec) <=? m)%Z then ((m / 10)%Z, (e + 1)%Z) else (m, e) in
  let ds := digits (S prec) m "" in
  match ds with
  | String d0 rest =>
      sign ++ String d0 (if (0 <? prec)%nat then "." ++ rest else rest)
           ++ "e" ++ exponent_field e
  | EmptyString => sign
  end.

(** Characters that are safe in a file name on every file system: letters,
    digits, and the signs [. _ - +]. *)
Definition filename_safe_char (c : ascii) : bool :=
  let n := nat_of_ascii c in
  ((48 <=? n) && (n <=? 57) || (65 <=? n) && (n <=? 90) || (97 <=? n) && (n <=? 122)
   || (n =? 46) || (n =? 95) || (n =? 45) || (n =? 43))%nat.

Definition filename_safe (s : string) : bool :=
  negb (s =? "") && forallb filename_safe_char (list_ascii_of_string s).

(** [os.path.join(p, q)] on POSIX for two components. *)
Definition path_join (p q : string) : string :=
  match q with
  | String "/" _ => q
  | _ =>
      if (p =? "") then q
      else if (substring (String.length p - 1) 1 p =? "/") then p ++ q
      else p ++ "/" ++ q
  end.

End PyFormat.

(** ** The numpy operations of the script on real numbers *)

Module Numpy.

Local Open Scope R_scope.

(** [np.log10] *)
Definition log10 (x : R) : R := ln x / ln 10.

(** [10 ** y] *)
Definition pow10 (y : R) : R := Rpower 10 y.

(** Assignment to the last entry, [y[-1] = v]. *)
Fixpoint set_last (y : list R) (v : R) : list R :=
  match y with
  | [] => []
  | [_] => [v]
  | x :: tl => x :: set_last tl v
  end.

(** [np.linspace(start, stop, num)] with the default [endpoint=True]:
    [arange(num) * step + start] with [step = (stop - start) / (num - 1)],
    the last entry overwritten with [stop] when [num > 1]; for [num = 1]
    there is no step and the single entry is [0 * (stop - start) + start]. *)
Definition linspace (start stop : R) (num : nat) : list R :=
  let div := (num - 1)%nat in
  let delta := stop - start in
  let y := map INR (seq 0 num) in
  let y :=
    if (0 <? div)%nat then map (fun v => v * (delta / INR div) + start) y
    else map (fun v => v * delta + start) y in
  if (1 <? num)%nat then set_last y stop else y.

(** [np.logspace(start, stop, num)], base 10. *)
Definition logspace (start stop : R) (num : nat) : list R :=
  map pow10 (linspace start stop num).

(** [np.diff]: differences of neighbours. *)
Fixpoint diff (l : list R) : list R :=
  match l with
  | [] => []
  | x :: tl =>
      match tl with
      | [] => []
      | y :: _ => (y - x) :: diff tl
      end
  end.

(** [np.mean] *)
Definition mean (l : list R) : R := fold_right Rplus 0 l / INR (length l).

End Numpy.

(** ** Definitions of the script (lines 40-98) *)

Module Script.

Import Numpy.
Local Open Scope R_scope.

(** [arts.constants.c], in m/s. *)
Definition c0 : R := 299792458.

Definition f_min : R := 1e9.
Definition f_max : R := 3e15.
Definition N_f : nat := 121.
Definition f_grid : list R := logspace (log10 f_min) (log10 f_max) N_f.

Definition t_grid : list R := [293.15].

Definition material : string := "H2O_liquid"%string.
Definition rho_water : R := 1000.

Definition newline : string := String "010" "".

Definition ref_index_text : string :=
  ("Segelstein, David J." ++ newline
   ++ "The complex refractive index of water / by David J. Segelstein.  1981." ++ newline
   ++ "ix, 167 leaves : ill. ; 29 cm." ++ newline
   ++ "Thesis (M.S.)--Department of Physics. University of" ++ newline
   ++ "Missouri-Kansas City, 1981." ++ newline
   ++ newline)%string.

Definition smoothing_window_size : R := 2.5.

(** Samples per subdomain. *)
Definition N_sub : nat := 1.

Definition datafolder : string :=
  ("../scattering_data/fullrange/" ++ material ++ "/")%string.
Definition datafolder_arrayformat : string :=
  ("../scattering_data/fullrange/ArrayFormat/" ++ material ++ "/")%string.
Definition plotfolder : string := ("../plots/fullrange/" ++ material ++ "/")%string.

(** [dlog_r = np.mean(np.diff(np.log10(droplet_radii)))] *)
Definition dlog_r (radii : list Q) : R := mean (diff (map (fun r => log10 (Q2R r)) radii)).

(** [r_sub_fac], lines 112-114. *)
Definition r_sub_fac (N_sub : nat) (dlog : R) : list R :=
  map (fun v => pow10 ((v - 0.5) * dlog))
      (linspace (1 / (2 * INR N_sub)) (1 - 1 / (2 * INR N_sub)) N_sub).

End Script.

(** ** Data and collaborators of the run *)

Module Data.

Definition complex : Type := (R * R)%type.

(** pyarts [SingleScatteringData], as far as the script reads it.  The data
    arrays are dense and row-major: [pha_mat_data] over (frequency,
    temperature, zenith angle, 1, 1, 1, coefficient) with six coefficients,
    [ext_mat_data] and [abs_vec_data] over (frequency, temperature, 1, 1, 1). *)
Record SingleScatteringData := {
  ssd_f_grid : list R;
  ssd_T_grid : list R;
  ssd_za_grid : list R;
  pha_mat_data : list R;
  ext_mat_data : list R;
  abs_vec_data : list R
}.

(** pyarts [ScatteringMetaData]: the physical descriptors of one droplet. *)
Record ScatteringMetaData := {
  smd_material : string;
  smd_radius : R;
  smd_density : R;
  smd_provenance : string
}.

(** The arguments of one call of [gmf.calc_arts_scattering_data]. *)
Record engine_args := {
  arg_f_grid : list R;
  arg_t_grid : list R;
  arg_za_grid : list R;
  arg_r : Q;
  arg_r_sub_fac : list R;
  arg_m : list complex;
  arg_rho : R;
  arg_ignore_limit : bool;
  arg_ref_index_text : string
}.

(** What the Mie solver returns for one sphere over the grids: the three
    dense arrays, and whether every size parameter was inside the regime in
    which the solver is stable. *)
Record solver_output := {
  sol_ext : list R;
  sol_abs : list R;
  sol_pha : list R;
  sol_stable : bool
}.

(** One line plot in a figure, and a figure. *)
Record axes := {
  plot_call : string;
  xlabel : string;
  ylabel : string;
  xdata : list R;
  ydata : list R;
  line_label : option string
}.

Record figure := {
  suptitle : string;
  panels : list axes
}.

(** What a file holds. *)
Inductive file_content :=
| SsdXml (d : SingleScatteringData)
| SmdXml (d : ScatteringMetaData)
| SsdArchive (format : string) (d : list (list SingleScatteringData))
| SmdArchive (format : string) (d : list (list ScatteringMetaData))
| Pdf (fig : figure).

(** The functions the script takes from the modules [gmf], [ref] and [af],
    none of which is among the sources, the Mie solver and the packaging of
    the records behind [gmf.calc_arts_scattering_data], and the float
    presentations of Python that act on values the solver returns.  They are
    functions: they return, and they leave their arguments as they are. *)
Class Collaborators := {
  create_angular_grid : nat -> nat -> list R;
  refactive_index_water_segelstein : list R -> list R * list R;
  mie_solver : R -> list R -> list R -> list R -> list complex -> solver_output;
  assemble_records :
    engine_args -> list R -> list R -> list R ->
    SingleScatteringData * ScatteringMetaData * list string;
  integrate_phasefunction_for_testing : SingleScatteringData -> list R * list R;
  subplot_dimensions : nat -> nat -> nat * nat;
  format_f : nat -> R -> string;
  format_g_complex : nat -> complex -> string;
  str_float : Q -> string
}.

End Data.

(** ** The per-radius engine *)

Module Engine.

Import Data.
Local Open Scope R_scope.

(** What a step of the run can raise. *)
Inductive error :=
| SolverInstability.

Section WithCollaborators.
Context `{Collaborators}.

(** Modelled from the spec: the elementwise sum of two dense arrays of one
    shape, for the average over the sub-radius factors. *)
Definition tensor_add (t1 t2 : list R) : list R :=
  map (fun p => fst p + snd p) (combine t1 t2).

(** Modelled from the spec: the elementwise mean of the arrays of the
    samples ("average the tensors elementwise across the factors"). *)
Definition tensor_mean (ts : list (list R)) : list R :=
  match ts with
  | [] => []
  | t :: rest => map (fun x => x / INR (length ts)) (fold_left tensor_add rest t)
  end.

(** Modelled from the spec: the solver outputs at the sub-radii [r * s], one
    per factor [s], each over the full frequency, temperature and angle
    grids. *)
Definition sub_radius_samples (args : engine_args) : list solver_output :=
  map (fun s => mie_solver (Q2R (arg_r args) * s) (arg_f_grid args) (arg_t_grid args)
                           (arg_za_grid args) (arg_m args))
      (arg_r_sub_fac args).

(** Modelled from the spec: the two records and the coefficient names,
    packaged from the averaged arrays. *)
Definition averaged_records (args : engine_args)
  : SingleScatteringData * ScatteringMetaData * list string :=
  let samples := sub_radius_samples args in
  assemble_records args
    (tensor_mean (map sol_ext samples))
    (tensor_mean (map sol_abs samples))
    (tensor_mean (map sol_pha samples)).

(** Modelled from the spec: some sample left the stable regime of the
    solver. *)
Definition unstable (args : engine_args) : bool :=
  existsb (fun o => negb (sol_stable o)) (sub_radius_samples args).

(** Modelled from the spec: [gmf.calc_arts_scattering_data], of the module
    [generate_miescattering_functions], which is not among the sources.  For
    each factor of [r_sub_fac] the solver is evaluated at radius [r * s]; the
    arrays are averaged elementwise over the factors and packaged into the
    two records.  A sample outside the stable regime of the solver is fatal,
    unless [ignore_limit] is set: then the best-effort arrays are used as
    they are. *)
Definition calc_arts_scattering_data (args : engine_args)
  : error + SingleScatteringData * ScatteringMetaData * list string :=
  if negb (arg_ignore_limit args) && unstable args
  then inl SolverInstability
  else inr (averaged_records args).

(** Modelled from the spec: the evaluation without averaging, one solver
    call at the radius itself, under the same policy for [ignore_limit]. *)
Definition unaveraged_evaluation (args : engine_args)
  : error + SingleScatteringData * ScatteringMetaData * list string :=
  let o := mie_solver (Q2R (arg_r args)) (arg_f_grid args) (arg_t_grid args)
                      (arg_za_grid args) (arg_m args) in
  if negb (arg_ignore_limit args) && negb (sol_stable o)
  then inl SolverInstability
  else inr (assemble_records args (sol_ext o) (sol_abs o) (sol_pha o)).

End WithCollaborators.

End Engine.

(** ** The run: state, effects and the script from line 101 on *)

Module Run.

Import Data Engine PyFormat Numpy Script.
Local Open Scope R_scope.

(** The two arrays the script fills, and what it leaves outside: the
    directories asked for, the files written (oldest first), the lines
    printed, and the engine calls made. *)
Record state := {
  ssd_array : list SingleScatteringData;
  smd_array : list ScatteringMetaData;
  directories : list string;
  files : list (string * file_content);
  stdout : list string;
  engine_calls : list engine_args
}.

Definition initial : state :=
  {| ssd_array := []; smd_array := []; directories := []; files := [];
     stdout := []; engine_calls := [] |}.

(** Statements: they change the state and return, or raise. *)
Definition M (A : Type) : Type := state -> state * (error + A).

Definition ret {A} (x : A) : M A := fun s => (s, inr x).

Definition raise {A} (e : error) : M A := fun s => (s, inl e).

Definition bind {A B} (c : M A) (k : A -> M B) : M B :=
  fun s =>
    match c s with
    | (s', inl e) => (s', inl e)
    | (s', inr x) => k x s'
    end.

Notation "x <- c1 ;; c2" := (bind c1 (fun x => c2))
  (at level 61, c1 at next level, right associativity).
Notation "' pat <- c1 ;; c2" := (bind c1 (fun x => match x with pat => c2 end))
  (at level 61, pat pattern, c1 at next level, right associativity).
Notation "c1 ;; c2" := (bind c1 (fun _ => c2))
  (at level 61, right associativity).

(** [for x in l: body(x)] *)
Fixpoint for_each {A} (l : list A) (body : A -> M unit) : M unit :=
  match l with
  | [] => ret tt
  | x :: tl => body x ;; for_each tl body
  end.

Definition enumerate {A} (l : list A) : list (nat * A) := combine (seq 0 (length l)) l.

(** [os.makedirs(path, exist_ok=True)] *)
Definition makedirs (path : string) : M unit :=
  fun s => ({| ssd_array := ssd_array s; smd_array := smd_array s;
               directories := directories s ++ [path]; files := files s;
               stdout := stdout s; engine_calls := engine_calls s |}, inr tt).

Definition write_file (path : string) (c : file_content) : M unit :=
  fun s => ({| ssd_array := ssd_array s; smd_array := smd_array s;
               directories := directories s; files := files s ++ [(path, c)];
               stdout := stdout s; engine_calls := engine_calls s |}, inr tt).

Definition print (line : string) : M unit :=
  fun s => ({| ssd_array := ssd_array s; smd_array := smd_array s;
               directories := directories s; files := files s;
               stdout := stdout s ++ [line]; engine_calls := engine_calls s |}, inr tt).

(** [ssd_array.append(ssd)] and [smd_array.append(smd)] *)
Definition ssd_array_append (d : SingleScatteringData) : M unit :=
  fun s => ({| ssd_array := ssd_array s ++ [d]; smd_array := smd_array s;
               directories := directories s; files := files s;
               stdout := stdout s; engine_calls := engine_calls s |}, inr tt).

Definition smd_array_append (d : ScatteringMetaData) : M unit :=
  fun s => ({| ssd_array := ssd_array s; smd_array := smd_array s ++ [d];
               directories := directories s; files := files s;
               stdout := stdout s; engine_calls := engine_calls s |}, inr tt).

Definition get_ssd_array : M (list SingleScatteringData) := fun s => (s, inr (ssd_array s)).
Definition get_smd_array : M (list ScatteringMetaData) := fun s => (s, inr (smd_array s)).

(** [fig.savefig(path)], [d.savexml(path)] and [xml.save(d, path, format=...)] *)
Definition savefig (fig : figure) (path : string) : M unit := write_file path (Pdf fig).
Definition savexml_ssd (d : SingleScatteringData) (path : string) : M unit :=
  write_file path (SsdXml d).
Definition savexml_smd (d : ScatteringMetaData) (path : string) : M unit :=
  write_file path (SmdXml d).
Definition xml_save_ssd (d : list (list SingleScatteringData)) (path format : string) : M unit :=
  write_file path (SsdArchive format d).
Definition xml_save_smd (d : list (list ScatteringMetaData)) (path format : string) : M unit :=
  write_file path (SmdArchive format d).

Section WithCollaborators.
Context `{Collaborators}.

(** A call of the engine: noted, then returned from or raised out of. *)
Definition call_calc_arts_scattering_data (args : engine_args)
  : M (SingleScatteringData * ScatteringMetaData * list string) :=
  fun s =>
    ({| ssd_array := ssd_array s; smd_array := smd_array s;
        directories := directories s; files := files s;
        stdout := stdout s; engine_calls := engine_calls s ++ [args] |},
     calc_arts_scattering_data args).

(** Lines 45, 74 and 75. *)
Definition za_grid : list R := create_angular_grid 721 5.

Definition m : list complex :=
  let '(m_r, m_i) := refactive_index_water_segelstein f_grid in
  map (fun p => (fst p, - snd p)) (combine m_r m_i).

(** [ssd.pha_mat_data[k, 0, :, 0, 0, 0, cnt]].  An index outside an array
    reads 0 here; the arrays of the script have the shapes of their grids,
    which keeps every index inside. *)
Definition pha_mat_slice (ssd : SingleScatteringData) (k cnt : nat) : list R :=
  let nT := length (ssd_T_grid ssd) in
  let nza := length (ssd_za_grid ssd) in
  map (fun a => nth (((k * nT + 0) * nza + a) * 6 + cnt) (pha_mat_data ssd) 0)
      (seq 0 nza).

(** [d[:, 0, 0, 0, 0]] for [ext_mat_data] and [abs_vec_data] *)
Definition first_temperature (ssd : SingleScatteringData) (d : list R) : list R :=
  let nT := length (ssd_T_grid ssd) in
  map (fun k => nth (k * nT + 0) d 0) (seq 0 (length (ssd_f_grid ssd))).

(** [c0 / f * 1e9], the wavelength in nm. *)
Definition wavelength_nm (f : list R) : list R := map (fun f_k => c0 / f_k * 1e9) f.

Definition pid_of (r_i : Q) : string :=
  ("MieSphere_R" ++ format_e 5 (r_i * 1000000)%Q ++ "um")%string.

(** Line 145. *)
Definition identifier_of (pid : string) (f_k : R) : string :=
  (pid ++ "_F" ++ format_f 3 (f_k / 1e12) ++ "THz_L"
       ++ format_f 3 (c0 / f_k * 1e9) ++ "nm")%string.

(** Lines 148-178: the phase matrix figure of frequency [k], one panel per
    coefficient. *)
Definition phase_matrix_figure (pid : string) (r_i : Q) (ssd : SingleScatteringData)
    (P_coeffs : list string) (k : nat) (f_k : R) : figure :=
  let x := 2 * PI * Q2R r_i * f_k / c0 in
  let '(rows, cols) := subplot_dimensions 6 1 in
  let panel (cnt : nat) : axes :=
    if (cnt =? 0)%nat then
      {| plot_call := "semilogy"; xlabel := "$\Theta$ / $^\circ$";
         ylabel := (nth cnt P_coeffs "" ++ " / m$^2$")%string;
         xdata := za_grid; ydata := pha_mat_slice ssd k cnt; line_label := None |}
    else
      {| plot_call := "plot"; xlabel := "$\Theta$ / $^\circ$";
         ylabel := (nth cnt P_coeffs "" ++ "/" ++ nth 0 P_coeffs "")%string;
         xdata := za_grid;
         ydata := map (fun p => fst p / snd p)
                      (combine (pha_mat_slice ssd k cnt) (pha_mat_slice ssd k 0));
         line_label := None |} in
  {| suptitle := (identifier_of pid f_k ++ newline ++ " " ++ material ++ " --- m = "
                    ++ format_g_complex 3 (nth k m (0, 0)) ++ " --- x = "
                    ++ format_f 1 x)%string;
     panels := map panel (seq 0 (rows * cols)) |}.

Definition pha_mat_folder_of (pid : string) : string :=
  path_join plotfolder ("PhaMat_" ++ pid)%string.

(** Lines 145-187. *)
Definition plot_phase_matrix (pid : string) (r_i : Q) (ssd : SingleScatteringData)
    (P_coeffs : list string) (k : nat) (f_k : R) : M unit :=
  let identifier := identifier_of pid f_k in
  let fig := phase_matrix_figure pid r_i ssd P_coeffs k f_k in
  let pha_mat_folder := pha_mat_folder_of pid in
  makedirs pha_mat_folder ;;
  let plotfilename := ("PhaMat_" ++ identifier ++ ".pdf")%string in
  savefig fig (path_join pha_mat_folder plotfilename).

(** Lines 192-218: cross sections and refractive index over wavelength. *)
Definition optical_properties_figure (pid : string) (ssd : SingleScatteringData) : figure :=
  let f_grid_ssd := ssd_f_grid ssd in
  {| suptitle := (pid ++ " " ++ material)%string;
     panels :=
       [ {| plot_call := "loglog"; xlabel := "wavelength / nm";
            ylabel := "extinction cross section / m$^2$";
            xdata := wavelength_nm f_grid_ssd;
            ydata := first_temperature ssd (ext_mat_data ssd); line_label := None |};
         {| plot_call := "loglog"; xlabel := "wavelength / nm";
            ylabel := "absorption cross section / m$^2$";
            xdata := wavelength_nm f_grid_ssd;
            ydata := first_temperature ssd (abs_vec_data ssd); line_label := None |};
         {| plot_call := "loglog"; xlabel := "wavelength / nm";
            ylabel := "refraction index real part";
            xdata := wavelength_nm f_grid; ydata := map fst m; line_label := None |};
         {| plot_call := "loglog"; xlabel := "wavelength / nm";
            ylabel := "refraction index imaginary part";
            xdata := wavelength_nm f_grid; ydata := map (fun c => Rabs (snd c)) m;
            line_label := None |} ] |}.

(** [(phfct_integral_mie / 2 - 1) * 100] *)
Definition normalization_deviation (phfct_integral_mie : list R) : list R :=
  map (fun v => (v / 2 - 1) * 100) phfct_integral_mie.

(** Lines 223-239: the deviation of the phase function integral from 2. *)
Definition normalization_figure (pid : string) (ssd : SingleScatteringData) : figure :=
  let '(phfct_integral_mie, _) := integrate_phasefunction_for_testing ssd in
  {| suptitle := (pid ++ " " ++ material)%string;
     panels :=
       [ {| plot_call := "semilogx"; xlabel := "wavelength / nm";
            ylabel := "Normalization derivation / %";
            xdata := wavelength_nm (ssd_f_grid ssd);
            ydata := normalization_deviation phfct_integral_mie;
            line_label := Some "Miepython SSD"%string |} ] |}.

(** Lines 138-244, the body of [if plotting:]. *)
Definition plot_results (pid : string) (r_i : Q) (ssd : SingleScatteringData)
    (P_coeffs : list string) : M unit :=
  for_each (enumerate (ssd_f_grid ssd))
    (fun '(k, f_k) =>
       if (0 <? k mod 10)%nat then ret tt
       else plot_phase_matrix pid r_i ssd P_coeffs k f_k) ;;
  print "plotting phase mat done" ;;
  savefig (optical_properties_figure pid ssd)
          (path_join plotfolder ("optical_properties_" ++ pid ++ ".pdf")%string) ;;
  print "plotting crossections done" ;;
  savefig (normalization_figure pid ssd)
          (path_join plotfolder ("phasefunction_derivation_" ++ pid ++ ".pdf")%string) ;;
  print "plotting normalization mat done".

(** The arguments of the engine call of lines 124-134. *)
Definition engine_args_of (r_sub_fac : list R) (r_i : Q) : engine_args :=
  {| arg_f_grid := f_grid; arg_t_grid := t_grid; arg_za_grid := za_grid;
     arg_r := r_i; arg_r_sub_fac := r_sub_fac; arg_m := m; arg_rho := rho_water;
     arg_ignore_limit := true; arg_ref_index_text := ref_index_text |}.

(** Lines 122-255, the body of the loop over the radii. *)
Definition loop_body (plotting : bool) (r_sub_fac : list R) (i : nat) (r_i : Q) : M unit :=
  let pid := pid_of r_i in
  '(ssd, smd, P_coeffs) <- call_calc_arts_scattering_data (engine_args_of r_sub_fac r_i) ;;
  (if plotting then plot_results pid r_i ssd P_coeffs else ret tt) ;;
  print pid ;;
  savexml_ssd ssd (path_join datafolder (pid ++ ".xml")%string) ;;
  savexml_smd smd (path_join datafolder (pid ++ ".meta.xml")%string) ;;
  ssd_array_append ssd ;;
  smd_array_append smd ;;
  print ("done with radius " ++ str_float (r_i * 1000000)%Q ++ " µm")%string.

(** Lines 120-255. *)
Definition radius_loop (plotting : bool) (r_sub_fac : list R) (radii : list Q) : M unit :=
  for_each (enumerate radii) (fun '(i, r_i) => loop_body plotting r_sub_fac i r_i).

(** Lines 258-274. *)
Definition save_array_format : M unit :=
  ssd_array <- get_ssd_array ;;
  smd_array <- get_smd_array ;;
  let ssd_array_sqr := [] ++ [ssd_array] in
  let smd_array_sqr := [] ++ [smd_array] in
  xml_save_ssd ssd_array_sqr
    (path_join datafolder_arrayformat ("MieSpheres_" ++ material ++ ".xml")%string) "binary" ;;
  xml_save_smd smd_array_sqr
    (path_join datafolder_arrayformat ("MieSpheres_" ++ material ++ ".meta.xml")%string) "binary".

(** Lines 101-274 for a plotting flag and a radius grid. *)
Definition script (plotting : bool) (radii : list Q) : M unit :=
  makedirs datafolder ;;
  makedirs datafolder_arrayformat ;;
  makedirs plotfolder ;;
  let r_sub_fac := r_sub_fac N_sub (dlog_r radii) in
  radius_loop plotting r_sub_fac radii ;;
  save_array_format.

End WithCollaborators.

(** Line 90, and the run of the script as it stands. *)
Definition plotting : bool := true.

Definition main `{Collaborators} : state * (error + unit) :=
  script plotting RadiusGrid.droplet_radii initial.

End Run.

(** ** What the statements of the run add to the state *)

Module Effects.

Import Data Engine PyFormat Numpy Script Run.

(** Every statement of the run appends: [app_state s d] is [s] with the
    entries of [d] appended, component by component. *)
Definition app_state (s d : state) : state :=
  {| ssd_array := ssd_array s ++ ssd_array d;
     smd_array := smd_array s ++ smd_array d;
     directories := directories s ++ directories d;
     files := files s ++ files d;
     stdout := stdout s ++ stdout d;
     engine_calls := engine_calls s ++ engine_calls d |}.

Definition concat_states (ds : list state) : state := fold_right app_state initial ds.

(** [c] returns [x] and appends [d], from whatever state it starts. *)
Definition emits {A} (c : M A) (d : state) (x : A) : Prop :=
  forall s, c s = (app_state s d, inr x).

Definition new_directory (path : string) : state :=
  {| ssd_array := []; smd_array := []; directories := [path]; files := [];
     stdout := []; engine_calls := [] |}.

Definition new_file (path : string) (c : file_content) : state :=
  {| ssd_array := []; smd_array := []; directories := []; files := [(path, c)];
     stdout := []; engine_calls := [] |}.

Definition new_line (line : string) : state :=
  {| ssd_array := []; smd_array := []; directories := []; files := [];
     stdout := [line]; engine_calls := [] |}.

Definition new_ssd (d : SingleScatteringData) : state :=
  {| ssd_array := [d]; smd_array := []; directories := []; files := [];
     stdout := []; engine_calls := [] |}.

Definition new_smd (d : ScatteringMetaData) : state :=
  {| ssd_array := []; smd_array := [d]; directories := []; files := [];
     stdout := []; engine_calls := [] |}.

Definition new_call (args : engine_args) : state :=
  {| ssd_array := []; smd_array := []; directories := []; files := [];
     stdout := []; engine_calls := [args] |}.

Section WithCollaborators.
Context `{Collaborators}.

(** The records of radius [r_i]: what the engine returns for the call of the
    loop body. *)
Definition records_of (r_sub_fac : list R) (r_i : Q)
  : SingleScatteringData * ScatteringMetaData * list string :=
  averaged_records (engine_args_of r_sub_fac r_i).

Definition ssd_of (r_sub_fac : list R) (r_i : Q) : SingleScatteringData :=
  fst (fst (records_of r_sub_fac r_i)).
Definition smd_of (r_sub_fac : list R) (r_i : Q) : ScatteringMetaData :=
  snd (fst (records_of r_sub_fac r_i)).
Definition P_coeffs_of (r_sub_fac : list R) (r_i : Q) : list string :=
  snd (records_of r_sub_fac r_i).

(** The names of the files of one radius. *)
Definition ssd_path (r_i : Q) : string := path_join datafolder (pid_of r_i ++ ".xml")%string.
Definition smd_path (r_i : Q) : string :=
  path_join datafolder (pid_of r_i ++ ".meta.xml")%string.
Definition normalization_path (pid : string) : string :=
  path_join plotfolder ("phasefunction_derivation_" ++ pid ++ ".pdf")%string.
Definition optical_properties_path (pid : string) : string :=
  path_join plotfolder ("optical_properties_" ++ pid ++ ".pdf")%string.
Definition phase_matrix_path (pid : string) (f_k : R) : string :=
  path_join (pha_mat_folder_of pid) ("PhaMat_" ++ identifier_of pid f_k ++ ".pdf")%string.

(** The names of the two files of the array format. *)
Definition ssd_archive_path : string :=
  path_join datafolder_arrayformat ("MieSpheres_" ++ material ++ ".xml")%string.
Definition smd_archive_path : string :=
  path_join datafolder_arrayformat ("MieSpheres_" ++ material ++ ".meta.xml")%string.

(** What one pass of the loop over the frequencies adds. *)
Definition phase_matrix_effect (pid : string) (r_i : Q) (ssd : SingleScatteringData)
    (P_coeffs : list string) (kf : nat * R) : state :=
  let '(k, f_k) := kf in
  if (0 <? k mod 10)%nat then initial
  else app_state (new_directory (pha_mat_folder_of pid))
         (new_file (phase_matrix_path pid f_k)
                   (Pdf (phase_matrix_figure pid r_i ssd P_coeffs k f_k))).

(** What the plotting block adds. *)
Definition plot_effect (pid : string) (r_i : Q) (ssd : SingleScatteringData)
    (P_coeffs : list string) : state :=
  concat_states
    [ concat_states (map (phase_matrix_effect pid r_i ssd P_coeffs)
                         (enumerate (ssd_f_grid ssd)));
      new_line "plotting phase mat done";
      new_file (optical_properties_path pid) (Pdf (optical_properties_figure pid ssd));
      new_line "plotting crossections done";
      new_file (normalization_path pid) (Pdf (normalization_figure pid ssd));
      new_line "plotting normalization mat done" ].

(** What the loop body adds for radius [r_i]. *)
Definition body_effect (plotting : bool) (r_sub_fac : list R) (r_i : Q) : state :=
  let pid := pid_of r_i in
  let ssd := ssd_of r_sub_fac r_i in
  let smd := smd_of r_sub_fac r_i in
  concat_states
    [ new_call (engine_args_of r_sub_fac r_i);
      (if plotting then plot_effect pid r_i ssd (P_coeffs_of r_sub_fac r_i) else initial);
      new_line pid;
      new_file (ssd_path r_i) (SsdXml ssd);
      new_file (smd_path r_i) (SmdXml smd);
      new_ssd ssd;
      new_smd smd;
      new_line ("done with radius " ++ str_float (r_i * 1000000)%Q ++ " µm")%string ].

(** The files of one radius: the figures when plotting, then the two
    records. *)
Definition record_files (r_sub_fac : list R) (r_i : Q) : list (string * file_content) :=
  [(ssd_path r_i, SsdXml (ssd_of r_sub_fac r_i));
   (smd_path r_i, SmdXml (smd_of r_sub_fac r_i))].

Definition figure_files (plotting : bool) (r_sub_fac : list R) (r_i : Q)
  : list (string * file_content) :=
  if plotting
  then files (plot_effect (pid_of r_i) r_i (ssd_of r_sub_fac r_i) (P_coeffs_of r_sub_fac r_i))
  else [].

(** What the loop adds over the radii. *)
Definition loop_effect (plotting : bool) (r_sub_fac : list R) (radii : list Q) : state :=
  concat_states (map (body_effect plotting r_sub_fac) radii).

(** The state in which the loop starts, and the one it leaves after the
    radii [done]. *)
Definition before_loop : state :=
  concat_states [new_directory datafolder; new_directory datafolder_arrayformat;
                 new_directory plotfolder].

Definition after_radii (plotting : bool) (r_sub_fac : list R) (done : list Q) : state :=
  app_state before_loop (loop_effect plotting r_sub_fac done).

(** The state at the end of the script. *)
Definition final_state (plotting : bool) (radii : list Q) : state :=
  let s := after_radii plotting (r_sub_fac N_sub (dlog_r radii)) radii in
  app_state s
    (app_state (new_file ssd_archive_path (SsdArchive "binary" [ssd_array s]))
               (new_file smd_archive_path (SmdArchive "binary" [smd_array s]))).

End WithCollaborators.

(** Kinds of files, and paths below a folder. *)
Definition is_pdf (f : string * file_content) : bool :=
  match snd f with Pdf _ => true | _ => false end.

Definition is_record_file (f : string * file_content) : bool :=
  match snd f with SsdXml _ | SmdXml _ => true | _ => false end.

Definition is_archive (f : string * file_content) : bool :=
  match snd f with SsdArchive _ _ | SmdArchive _ _ => true | _ => false end.

Definition below (folder : string) (f : string * file_content) : bool :=
  prefix folder (fst f).

(** No two equal names in a list. *)
Fixpoint nodupb (l : list string) : bool :=
  match l with
  | [] => true
  | x :: tl => negb (existsb (String.eqb x) tl) && nodupb tl
  end.

(** The number of writes to [path], and what [path] holds in the end: the
    content of the last write. *)
Definition writes_to (path : string) (fs : list (string * file_content)) : nat :=
  length (filter (fun f => (fst f =? path)%string) fs).

Definition read_file (path : string) (fs : list (string * file_content))
  : option file_content :=
  fold_left (fun acc f => if (fst f =? path)%string then Some (snd f) else acc) fs None.

(** The check of the normalization is reported for radius [r_i]: its figure
    is among the files. *)
Definition normalization_reported `{Collaborators} (fs : list (string * file_content))
    (r_sub_fac : list R) (r_i : Q) : Prop :=
  In (normalization_path (pid_of r_i),
      Pdf (normalization_figure (pid_of r_i) (ssd_of r_sub_fac r_i))) fs.

End Effects.

(** ** Collaborators to run the script with *)

Module Samples.

Import Data.
Local Open Scope R_scope.

(** A solver that is outside its stable regime at every radius and returns
    one best-effort value per array, records that echo the grids, and a
    phase function integral of 3 at one frequency. *)
Definition unstable_solver : Collaborators :=
  {| create_angular_grid := fun _ _ => [0; 90; 180];
     refactive_index_water_segelstein := fun f => (map (fun _ => 1.33) f, map (fun _ => 0) f);
     mie_solver := fun r _ _ _ _ =>
       {| sol_ext := [r]; sol_abs := [0]; sol_pha := [1]; sol_stable := false |};
     assemble_records := fun args ext abs pha =>
       ({| ssd_f_grid := [1e9]; ssd_T_grid := arg_t_grid args;
           ssd_za_grid := arg_za_grid args;
           pha_mat_data := pha; ext_mat_data := ext; abs_vec_data := abs |},
        {| smd_material := "H2O_liquid"; smd_radius := Q2R (arg_r args);
           smd_density := arg_rho args; smd_provenance := arg_ref_index_text args |},
        ["Z11"; "Z12"; "Z22"; "Z33"; "Z34"; "Z44"]%string);
     integrate_phasefunction_for_testing := fun _ => ([3], []);
     subplot_dimensions := fun _ _ => (2%nat, 3%nat);
     format_f := fun _ _ => "0.000"%string;
     format_g_complex := fun _ _ => "1.33-0j"%string;
     str_float := fun _ => "0.1"%string |}.

End Samples.

(** * Properties *)

(** ** The radius grid *)

Module RadiusGridFacts.

Import RadiusGrid.

Lemma Qlt_bool_iff (x y : Q) : Qlt_bool x y = true <-> x < y.
Proof.
  unfold Qlt_bool. rewrite negb_true_iff. split.
  - intros Hb. apply Qnot_le_lt. intros Hle.
    apply Qle_bool_iff in Hle. congruence.
  - intros Hlt. destruct (Qle_bool y x) eqn:E; [|reflexivity].
    apply Qle_bool_iff in E. exfalso. exact (Qlt_not_le _ _ Hlt E).
Qed.

Lemma In_np_sort (x : Q) (l : list Q) : In x (np_sort l) <-> In x l.
Proof.
  unfold np_sort. split; intros Hin.
  - eapply Permutation.Permutation_in; [|exact Hin].
    apply Permutation.Permutation_sym, QSort.Permuted_sort.
  - eapply Permutation.Permutation_in; [|exact Hin]. apply QSort.Permuted_sort.
Qed.

Lemma StronglySorted_weaken {A} (P P' : A -> A -> Prop) (l : list A) :
  (forall x y, P x y -> P' x y) -> StronglySorted P l -> StronglySorted P' l.
Proof.
  intros Himp Hs. induction Hs as [|x l Hs IH Hall]; constructor.
  - exact IH.
  - eapply Forall_impl; [|exact Hall]. intros y. apply Himp.
Qed.

Lemma StronglySorted_filter {A} (P : A -> A -> Prop) (f : A -> bool) (l : list A) :
  StronglySorted P l -> StronglySorted P (filter f l).
Proof.
  intros Hs. induction Hs as [|x l Hs IH Hall]; simpl.
  - constructor.
  - destruct (f x); [|exact IH]. constructor; [exact IH|].
    rewrite Forall_forall in *. intros y Hy. apply filter_In in Hy. apply Hall, Hy.
Qed.

Lemma np_sort_sorted (l : list Q) : StronglySorted Qle (np_sort l).
Proof.
  apply StronglySorted_weaken with (P := fun x y => is_true (QOrder.leb x y)).
  - intros x y Hxy. apply Qle_bool_iff. exact Hxy.
  - apply QSort.StronglySorted_sort. intros x y z Hxy Hyz.
    unfold is_true, QOrder.leb in *. rewrite Qle_bool_iff in *.
    eapply Qle_trans; eassumption.
Qed.

(** The grid is ascending, whatever the multipliers and decades. *)
Lemma build_radius_grid_sorted (xs ys : list Q) : StronglySorted Qle (build_radius_grid xs ys).
Proof. unfold build_radius_grid. apply StronglySorted_filter, np_sort_sorted. Qed.

(** The grid holds the candidates below the bound, and nothing else. *)
Lemma build_radius_grid_In (xs ys : list Q) (r : Q) :
  In r (build_radius_grid xs ys) <-> In r (ravel (outer xs ys)) /\ r < r_max.
Proof.
  unfold build_radius_grid. rewrite filter_In, In_np_sort, Qlt_bool_iff. reflexivity.
Qed.

Lemma strictly_increasingb_sound (l : list Q) :
  strictly_increasingb l = true -> StronglySorted Qlt l.
Proof.
  intros Hb. apply Sorted_StronglySorted.
  - intros x y z. apply Qlt_trans.
  - induction l as [|x [|y tl] IH]; simpl in *.
    + constructor.
    + repeat constructor.
    + apply andb_true_iff in Hb. destruct Hb as [Hxy Hrest]. constructor.
      * apply IH. exact Hrest.
      * constructor. apply Qlt_bool_iff. exact Hxy.
Qed.

(** The multipliers are the ceilings the script takes: on the reals,
    [n - 1 < 4 * 10^(j/10) <= n] for the integer [n] the search returns. *)
Lemma pow10_lt (x y : R) : (0 < x < y)%R -> (x ^ 10 < y ^ 10)%R.
Proof.
  intros [Hx Hxy].
  rewrite <- (Rpower_pow 10 x), <- (Rpower_pow 10 y) by lra.
  apply Rlt_Rpower_l; [apply lt_0_INR; lia | lra].
Qed.

Lemma scaled_pow10_pow (j : nat) :
  ((4 * Numpy.pow10 (INR j / 10)) ^ 10 = IZR (4 ^ 10 * 10 ^ Z.of_nat j))%R.
Proof.
  unfold Numpy.pow10.
  rewrite Rpow_mult_distr, <- (Rpower_pow 10 (Rpower 10 (INR j / 10))) by apply exp_pos.
  rewrite Rpower_mult.
  replace (INR j / 10 * INR 10)%R with (INR j) by (simpl; field).
  rewrite Rpower_pow by lra.
  rewrite mult_IZR. change (4 ^ 10)%Z with (4 ^ Z.of_nat 10)%Z.
  rewrite <- !pow_IZR. reflexivity.
Qed.

Lemma ceil_on_reals (j : nat) (n : Z) :
  (1 < n)%Z ->
  ((n - 1) ^ 10 < 4 ^ 10 * 10 ^ Z.of_nat j <= n ^ 10)%Z ->
  (IZR n - 1 < 4 * Numpy.pow10 (INR j / 10) <= IZR n)%R.
Proof.
  intros Hn [Hlo Hhi].
  assert (Hx : (0 < 4 * Numpy.pow10 (INR j / 10))%R).
  { apply Rmult_lt_0_compat; [lra | apply exp_pos]. }
  assert (Hn1 : (1 < IZR n)%R) by (apply IZR_lt; exact Hn).
  pose proof (scaled_pow10_pow j) as Hpow.
  apply IZR_lt in Hlo. apply IZR_le in Hhi.
  change 10%Z with (Z.of_nat 10) in Hlo at 1. change 10%Z with (Z.of_nat 10) in Hhi at 3.
  rewrite <- pow_IZR in Hlo, Hhi. rewrite minus_IZR in Hlo.
  split.
  - apply Rnot_le_lt. intros Hle.
    assert (H1 : ((4 * Numpy.pow10 (INR j / 10)) ^ 10 <= (IZR n - 1) ^ 10)%R).
    { apply pow_incr. lra. }
    lra.
  - apply Rnot_lt_le. intros Hlt.
    assert (H1 : (IZR n ^ 10 < (4 * Numpy.pow10 (INR j / 10)) ^ 10)%R).
    { apply pow10_lt. lra. }
    lra.
Qed.

Lemma ceil_4_pow10_is_ceiling (j : nat) :
  In j arange_0_1_tenth ->
  (IZR (ceil_4_pow10 j) - 1 < 4 * Numpy.pow10 (INR j / 10) <= IZR (ceil_4_pow10 j))%R.
Proof.
  intros Hj. apply ceil_on_reals;
    unfold arange_0_1_tenth in Hj; simpl in Hj;
    repeat (destruct Hj as [<-|Hj]; [vm_compute; intuition congruence|]);
    destruct Hj.
Qed.

(** The sort keeps equal candidates: with a multiplier 10 next to 1 the
    candidate 1e-4 comes twice, and stays twice. *)
Remark np_sort_keeps_duplicates :
  length (build_radius_grid [1; 10] [1 # 100000; 1 # 10000]) = 4%nat
  /\ length (spec_build_radius_grid [1; 10] [1 # 100000; 1 # 10000]) = 3%nat.
Proof. split; vm_compute; reflexivity. Qed.

(** C1: the radius grid is the outer product of the multipliers and the
    decades, flattened, sorted ascending, deduplicated and cut below 5e-3 m:
    the sort of the script leaves nothing to deduplicate on these sequences.
    Whatever the sequences, the grid is ascending, every radius in it is a
    candidate below 5e-3 m, and no candidate at or above 5e-3 m has an equal
    in it. *)
Theorem radius_grid_built_and_cut :
  droplet_radii = spec_build_radius_grid a b
  /\ (forall xs ys, StronglySorted Qle (build_radius_grid xs ys))
  /\ (forall xs ys r,
        In r (build_radius_grid xs ys) <-> In r (ravel (outer xs ys)) /\ r < 5 # 1000)
  /\ (forall xs ys c r,
        In c (ravel (outer xs ys)) -> 5 # 1000 <= c ->
        In r (build_radius_grid xs ys) -> ~ r == c).
Proof.
  split; [vm_compute; reflexivity|].
  split; [exact build_radius_grid_sorted|].
  split; [exact build_radius_grid_In|].
  intros xs ys c r _ Hc Hr Heq.
  apply build_radius_grid_In in Hr. destruct Hr as [_ Hr].
  rewrite Heq in Hr. exact (Qlt_not_le _ _ Hr Hc).
Qed.

(** The candidate 5.25e-3 m of the script is not in its grid. *)
Lemma radius_grid_built_and_cut_witness :
  In (21 # 4000) (ravel (outer a b)) /\ 5 # 1000 <= 21 # 4000
  /\ forall r, In r droplet_radii -> ~ r == 21 # 4000.
Proof.
  assert (Hin : In (21 # 4000) (ravel (outer a b))).
  { vm_compute. do 39 right. left. reflexivity. }
  assert (Hle : 5 # 1000 <= 21 # 4000) by (vm_compute; discriminate).
  split; [exact Hin|]. split; [exact Hle|].
  intros r Hr.
  exact (proj2 (proj2 (proj2 radius_grid_built_and_cut)) a b (21 # 4000) r Hin Hle Hr).
Defined.

(** C10: with the multipliers [ceil(4 * 10^(j/10)) / 4], [j = 0 .. 9], and
    the decades 1e-7 .. 1e-3, the grid has 47 strictly increasing radii from
    1e-7 m to 4e-3 m, and the cut removes 5.25e-3, 6.5e-3 and 8e-3 m. *)
Theorem droplet_radii_configured :
  Forall (fun j => (IZR (ceil_4_pow10 j) - 1 < 4 * Numpy.pow10 (INR j / 10)
                    <= IZR (ceil_4_pow10 j))%R) arange_0_1_tenth
  /\ a = map (fun j => inject_Z (ceil_4_pow10 j) / 4) (seq 0 10)
  /\ Forall2 Qeq b [1 # 10000000; 1 # 1000000; 1 # 100000; 1 # 10000; 1 # 1000]
  /\ length droplet_radii = 47%nat
  /\ StronglySorted Qlt droplet_radii
  /\ hd 0 droplet_radii == 1 # 10000000
  /\ last droplet_radii 0 == 4 # 1000
  /\ Forall2 Qeq (removed_candidates a b) [525 # 100000; 65 # 10000; 8 # 1000].
Proof.
  split.
  { apply Forall_forall. exact ceil_4_pow10_is_ceiling. }
  split; [reflexivity|].
  split; [repeat constructor|].
  split; [vm_compute; reflexivity|].
  split; [apply strictly_increasingb_sound; vm_compute; reflexivity|].
  split; [vm_compute; reflexivity|].
  split; [vm_compute; reflexivity|].
  vm_compute. repeat constructor.
Qed.

End RadiusGridFacts.

(** ** The frequency grid and the sub-radius factors *)

Module GridFacts.

Import Numpy Script.
Local Open Scope R_scope.

Lemma set_last_length (y : list R) (v : R) : length (set_last y v) = length y.
Proof.
  induction y as [|x [|x' tl] IH]; simpl in *; try reflexivity.
  f_equal. exact IH.
Qed.

Lemma set_last_same (y : list R) (v d : R) : last y d = v -> y <> [] -> set_last y v = y.
Proof.
  induction y as [|x [|x' tl] IH]; intros Hlast Hne.
  - contradiction.
  - simpl in *. subst. reflexivity.
  - change (x :: set_last (x' :: tl) v = x :: x' :: tl). f_equal.
    apply IH; [exact Hlast | discriminate].
Qed.

Lemma last_map_seq (g : nat -> R) (n : nat) (d : R) :
  last (map g (seq 0 (S n))) d = g n.
Proof.
  rewrite seq_S, map_app. simpl. apply last_last.
Qed.

(** For at least two points, [linspace] is the arithmetic sequence from
    [start] in steps of [(stop - start) / (num - 1)]: its last term is
    [stop] already. *)
Lemma linspace_arithmetic (start stop : R) (n : nat) :
  linspace start stop (S (S n)) =
  map (fun i => INR i * ((stop - start) / INR (S n)) + start) (seq 0 (S (S n))).
Proof.
  unfold linspace.
  replace (S (S n) - 1)%nat with (S n) by lia.
  change (0 <? S n)%nat with true. change (1 <? S (S n))%nat with true. cbv iota.
  rewrite map_map. apply set_last_same with (d := 0).
  - rewrite last_map_seq. assert (INR (S n) <> 0) by (apply not_0_INR; lia). field. assumption.
  - discriminate.
Qed.

Lemma linspace_length (start stop : R) (n : nat) : length (linspace start stop n) = n.
Proof.
  unfold linspace.
  destruct (1 <? n)%nat; [rewrite set_last_length|];
    destruct (0 <? n - 1)%nat; rewrite !length_map, length_seq; reflexivity.
Qed.

Lemma map_seq_increasing (g : nat -> R) (n a : nat) :
  (forall i j, (i < j)%nat -> g i < g j) -> StronglySorted Rlt (map g (seq a n)).
Proof.
  intros Hg. revert a. induction n as [|n IH]; intros a; simpl.
  - constructor.
  - constructor; [apply IH|].
    apply Forall_forall. intros y Hy. apply in_map_iff in Hy.
    destruct Hy as (j & <- & Hj). apply in_seq in Hj. apply Hg. lia.
Qed.

Lemma ln_10_pos : 0 < ln 10.
Proof. rewrite <- ln_1. apply ln_increasing; lra. Qed.

Lemma pow10_log10 (x : R) : 0 < x -> pow10 (log10 x) = x.
Proof.
  intros Hx. unfold pow10, log10, Rpower.
  replace (ln x / ln 10 * ln 10) with (ln x) by (field; pose proof ln_10_pos; lra).
  apply exp_ln. exact Hx.
Qed.

Lemma log10_pow10 (y : R) : log10 (pow10 y) = y.
Proof.
  unfold pow10, log10, Rpower. rewrite ln_exp. field. pose proof ln_10_pos. lra.
Qed.

Lemma pow10_increasing (x y : R) : x < y -> pow10 x < pow10 y.
Proof. intros Hxy. unfold pow10. apply Rpower_lt; lra. Qed.

Lemma log10_increasing (x y : R) : 0 < x -> x < y -> log10 x < log10 y.
Proof.
  intros Hx Hxy. unfold log10. apply Rmult_lt_compat_r.
  - apply Rinv_0_lt_compat, ln_10_pos.
  - apply ln_increasing; assumption.
Qed.

(** A logarithmic grid of at least two points is the geometric sequence
    from [lo] to [hi]. *)
Lemma logspace_geometric (lo hi : R) (n : nat) :
  0 < lo -> 0 < hi ->
  logspace (log10 lo) (log10 hi) (S (S n)) =
  map (fun i => lo * Rpower (hi / lo) (INR i / INR (S n))) (seq 0 (S (S n))).
Proof.
  intros Hlo Hhi. unfold logspace. rewrite linspace_arithmetic, map_map.
  apply map_ext. intros i.
  assert (Hn : INR (S n) <> 0) by (apply not_0_INR; lia).
  pose proof ln_10_pos as H10.
  assert (Hln : ln (hi / lo) = ln hi - ln lo).
  { unfold Rdiv. rewrite ln_mult, ln_Rinv; try lra. apply Rinv_0_lt_compat. exact Hlo. }
  unfold pow10, log10, Rpower.
  transitivity (exp (ln lo + INR i / INR (S n) * ln (hi / lo))).
  - f_equal. rewrite Hln. field. lra.
  - rewrite exp_plus, exp_ln by exact Hlo. reflexivity.
Qed.

(** C8: the frequency grid has 121 points, spaced evenly in [log10] from
    1e9 Hz to 3e15 Hz, both ends included, and is strictly increasing. *)
Theorem f_grid_logspaced :
  N_f = 121%nat
  /\ length f_grid = 121%nat
  /\ map log10 f_grid = linspace (log10 1e9) (log10 3e15) 121
  /\ f_grid = map (fun i => 1e9 * Rpower (3e15 / 1e9) (INR i / 120)) (seq 0 121)
  /\ hd 0 f_grid = 1e9
  /\ last f_grid 0 = 3e15
  /\ StronglySorted Rlt f_grid.
Proof.
  assert (H120 : INR 120 = 120) by (rewrite INR_IZR_INZ; reflexivity).
  assert (Hgeo : f_grid = map (fun i => 1e9 * Rpower (3e15 / 1e9) (INR i / 120)) (seq 0 121)).
  { unfold f_grid, N_f, f_min, f_max.
    rewrite (logspace_geometric 1e9 3e15 119) by lra.
    apply map_ext. intros i. rewrite H120. reflexivity. }
  split; [reflexivity|].
  split; [unfold f_grid, logspace; rewrite length_map; apply linspace_length|].
  split.
  { unfold f_grid, logspace, N_f, f_min, f_max. rewrite map_map.
    rewrite (map_ext _ (fun y => y)) by (intros y; apply log10_pow10).
    apply map_id. }
  split; [exact Hgeo|].
  split.
  { rewrite Hgeo. change (seq 0 121) with (0%nat :: seq 1 120). simpl hd.
    transitivity (1e9 * Rpower (3e15 / 1e9) 0).
    - f_equal. f_equal. simpl. lra.
    - rewrite Rpower_O by lra. lra. }
  split.
  { rewrite Hgeo. change 121%nat with (S 120). rewrite last_map_seq.
    transitivity (1e9 * Rpower (3e15 / 1e9) 1).
    - f_equal. f_equal. rewrite H120. lra.
    - rewrite Rpower_1 by lra. lra. }
  rewrite Hgeo. apply map_seq_increasing. intros i j Hij.
  apply Rmult_lt_compat_l; [lra|].
  apply Rpower_lt; [lra|].
  apply lt_INR in Hij. lra.
Qed.

(** With one sample there is one factor, and it is 1. *)
Lemma r_sub_fac_single (dlog : R) : r_sub_fac 1 dlog = [1].
Proof.
  unfold r_sub_fac, linspace, pow10. simpl.
  f_equal. replace ((0 * (1 - 1 / (2 * 1) - 1 / (2 * 1)) + 1 / (2 * 1) - 0.5) * dlog) with 0 by lra.
  apply Rpower_O. lra.
Qed.

End GridFacts.

(** ** The run *)

Module RunFacts.

Import Data Engine PyFormat Numpy Script Run Effects.

Lemma app_state_assoc (s d e : state) :
  app_state (app_state s d) e = app_state s (app_state d e).
Proof. unfold app_state; simpl. rewrite <- !app_assoc. reflexivity. Qed.

Lemma app_state_initial_r (s : state) : app_state s initial = s.
Proof. destruct s. unfold app_state; simpl. rewrite !app_nil_r. reflexivity. Qed.

Lemma app_state_initial_l (s : state) : app_state initial s = s.
Proof. destruct s. reflexivity. Qed.

Lemma emits_ret {A} (x : A) : emits (ret x) initial x.
Proof. intros s. unfold ret. rewrite app_state_initial_r. reflexivity. Qed.

Lemma emits_bind {A B} (c : M A) (k : A -> M B) (d1 d2 : state) (x : A) (y : B) :
  emits c d1 x -> emits (k x) d2 y -> emits (bind c k) (app_state d1 d2) y.
Proof.
  intros Hc Hk s. unfold bind. rewrite Hc, Hk. rewrite app_state_assoc. reflexivity.
Qed.

Lemma emits_for_each {A} (body : A -> M unit) (D : A -> state) (l : list A) :
  (forall x, emits (body x) (D x) tt) ->
  emits (for_each l body) (concat_states (map D l)) tt.
Proof.
  intros Hbody. induction l as [|x tl IH]; simpl.
  - apply emits_ret.
  - eapply emits_bind; [apply Hbody | exact IH].
Qed.

Lemma emits_makedirs (path : string) : emits (makedirs path) (new_directory path) tt.
Proof. intros s. unfold makedirs, app_state; simpl. rewrite !app_nil_r. reflexivity. Qed.

Lemma emits_write_file (path : string) (c : file_content) :
  emits (write_file path c) (new_file path c) tt.
Proof. intros s. unfold write_file, app_state; simpl. rewrite !app_nil_r. reflexivity. Qed.

Lemma emits_print (line : string) : emits (print line) (new_line line) tt.
Proof. intros s. unfold print, app_state; simpl. rewrite !app_nil_r. reflexivity. Qed.

Lemma emits_ssd_array_append (d : SingleScatteringData) :
  emits (ssd_array_append d) (new_ssd d) tt.
Proof. intros s. unfold ssd_array_append, app_state; simpl. rewrite !app_nil_r. reflexivity. Qed.

Lemma emits_smd_array_append (d : ScatteringMetaData) :
  emits (smd_array_append d) (new_smd d) tt.
Proof. intros s. unfold smd_array_append, app_state; simpl. rewrite !app_nil_r. reflexivity. Qed.

Lemma map_snd_enumerate {A} (l : list A) : map snd (enumerate l) = l.
Proof.
  unfold enumerate. generalize 0%nat. induction l as [|x tl IH]; intros n; simpl.
  - reflexivity.
  - f_equal. apply IH.
Qed.

Section WithCollaborators.
Context `{Collaborators}.

(** The engine call of the loop body returns: it passes [ignore_limit]. *)
Lemma emits_engine_call (r_sub_fac : list R) (r_i : Q) :
  emits (call_calc_arts_scattering_data (engine_args_of r_sub_fac r_i))
        (new_call (engine_args_of r_sub_fac r_i)) (records_of r_sub_fac r_i).
Proof.
  intros s. unfold call_calc_arts_scattering_data, calc_arts_scattering_data, app_state; simpl.
  rewrite !app_nil_r. reflexivity.
Qed.

Lemma emits_plot_phase_matrix pid r_i ssd P_coeffs (kf : nat * R) :
  emits (let '(k, f_k) := kf in
         if (0 <? k mod 10)%nat then ret tt
         else plot_phase_matrix pid r_i ssd P_coeffs k f_k)
        (phase_matrix_effect pid r_i ssd P_coeffs kf) tt.
Proof.
  destruct kf as [k f_k]. unfold phase_matrix_effect.
  destruct (0 <? k mod 10)%nat.
  - apply emits_ret.
  - unfold plot_phase_matrix. eapply emits_bind; [apply emits_makedirs|].
    apply emits_write_file.
Qed.

Lemma emits_plot_results pid r_i ssd P_coeffs :
  emits (plot_results pid r_i ssd P_coeffs) (plot_effect pid r_i ssd P_coeffs) tt.
Proof.
  unfold plot_results, plot_effect. cbn [concat_states fold_right].
  eapply emits_bind.
  { apply emits_for_each with (D := phase_matrix_effect pid r_i ssd P_coeffs).
    intros kf. apply emits_plot_phase_matrix. }
  eapply emits_bind; [apply emits_print|].
  eapply emits_bind; [apply emits_write_file|].
  eapply emits_bind; [apply emits_print|].
  eapply emits_bind; [apply emits_write_file|].
  rewrite app_state_initial_r. apply emits_print.
Qed.

Lemma emits_loop_body plotting r_sub_fac (i : nat) r_i :
  emits (loop_body plotting r_sub_fac i r_i) (body_effect plotting r_sub_fac r_i) tt.
Proof.
  unfold loop_body, body_effect. cbn [concat_states fold_right].
  eapply emits_bind; [apply emits_engine_call|].
  unfold ssd_of, smd_of, P_coeffs_of.
  destruct (records_of r_sub_fac r_i) as [[ssd smd] P_coeffs]. cbn [fst snd].
  eapply emits_bind.
  { destruct plotting; [apply emits_plot_results | apply emits_ret]. }
  eapply emits_bind; [apply emits_print|].
  eapply emits_bind; [apply emits_write_file|].
  eapply emits_bind; [apply emits_write_file|].
  eapply emits_bind; [apply emits_ssd_array_append|].
  eapply emits_bind; [apply emits_smd_array_append|].
  rewrite app_state_initial_r. apply emits_print.
Qed.

Lemma emits_radius_loop plotting r_sub_fac radii :
  emits (radius_loop plotting r_sub_fac radii) (loop_effect plotting r_sub_fac radii) tt.
Proof.
  unfold radius_loop, loop_effect.
  rewrite <- (map_snd_enumerate radii) at 2. rewrite map_map.
  apply emits_for_each. intros [i r_i]. apply emits_loop_body.
Qed.

(** The loop up to a stage: started where the script starts it, it returns
    and leaves [after_radii]. *)
Lemma radius_loop_run plotting r_sub_fac done :
  radius_loop plotting r_sub_fac done before_loop
  = (after_radii plotting r_sub_fac done, inr tt).
Proof. apply emits_radius_loop. Qed.

(** The script returns, and leaves [final_state]. *)
Lemma script_run plotting radii :
  script plotting radii initial = (final_state plotting radii, inr tt).
Proof.
  unfold script, bind.
  rewrite (emits_makedirs datafolder initial).
  rewrite (emits_makedirs datafolder_arrayformat).
  rewrite (emits_makedirs plotfolder).
  replace (app_state (app_state (app_state initial (new_directory datafolder))
                                (new_directory datafolder_arrayformat))
                     (new_directory plotfolder))
    with before_loop by reflexivity.
  rewrite radius_loop_run.
  unfold save_array_format, bind, get_ssd_array, get_smd_array, xml_save_ssd, xml_save_smd.
  rewrite (emits_write_file ssd_archive_path), (emits_write_file smd_archive_path).
  unfold final_state. rewrite app_state_assoc. reflexivity.
Qed.

Lemma nodupb_sound (l : list string) : nodupb l = true -> NoDup l.
Proof.
  induction l as [|x tl IH]; simpl; intros Hb; constructor.
  - apply andb_true_iff in Hb. destruct Hb as [Hx _].
    apply negb_true_iff in Hx. intros Hin.
    assert (Hex : existsb (String.eqb x) tl = true).
    { apply existsb_exists. exists x. split; [exact Hin | apply String.eqb_refl]. }
    congruence.
  - apply IH. apply andb_true_iff in Hb. apply Hb.
Qed.

(** *** Components of the effects *)

Lemma concat_states_ssd (ds : list state) :
  ssd_array (concat_states ds) = flat_map ssd_array ds.
Proof. induction ds as [|d tl IH]; simpl; [|rewrite IH]; reflexivity. Qed.

Lemma concat_states_smd (ds : list state) :
  smd_array (concat_states ds) = flat_map smd_array ds.
Proof. induction ds as [|d tl IH]; simpl; [|rewrite IH]; reflexivity. Qed.

Lemma concat_states_files (ds : list state) :
  files (concat_states ds) = flat_map files ds.
Proof. induction ds as [|d tl IH]; simpl; [|rewrite IH]; reflexivity. Qed.

Lemma concat_states_calls (ds : list state) :
  engine_calls (concat_states ds) = flat_map engine_calls ds.
Proof. induction ds as [|d tl IH]; simpl; [|rewrite IH]; reflexivity. Qed.

Lemma flat_map_nil {A B} (f : A -> list B) (l : list A) :
  (forall x, f x = []) -> flat_map f l = [].
Proof. intros Hf. induction l as [|x tl IH]; simpl; [|rewrite Hf, IH]; reflexivity. Qed.

Lemma flat_map_singleton {A B} (f : A -> list B) (g : A -> B) (l : list A) :
  (forall x, f x = [g x]) -> flat_map f l = map g l.
Proof. intros Hf. induction l as [|x tl IH]; simpl; [|rewrite Hf, IH]; reflexivity. Qed.

Lemma phase_matrix_effect_no_records pid r_i ssd P_coeffs kf :
  ssd_array (phase_matrix_effect pid r_i ssd P_coeffs kf) = []
  /\ smd_array (phase_matrix_effect pid r_i ssd P_coeffs kf) = []
  /\ engine_calls (phase_matrix_effect pid r_i ssd P_coeffs kf) = [].
Proof.
  destruct kf as [k f_k]. unfold phase_matrix_effect.
  destruct (0 <? k mod 10)%nat; repeat split.
Qed.

(** Plotting appends no record and calls no engine. *)
Lemma plot_effect_no_records pid r_i ssd P_coeffs :
  ssd_array (plot_effect pid r_i ssd P_coeffs) = []
  /\ smd_array (plot_effect pid r_i ssd P_coeffs) = []
  /\ engine_calls (plot_effect pid r_i ssd P_coeffs) = [].
Proof.
  unfold plot_effect. cbn [concat_states fold_right app_state ssd_array smd_array engine_calls
                           new_line new_file initial].
  rewrite concat_states_ssd, concat_states_smd, concat_states_calls, !flat_map_concat_map,
    !map_map, <- !flat_map_concat_map.
  rewrite !flat_map_nil; [repeat split | | |];
    intros kf; apply (phase_matrix_effect_no_records pid r_i ssd P_coeffs kf).
Qed.

Lemma body_effect_ssd plotting r_sub_fac r_i :
  ssd_array (body_effect plotting r_sub_fac r_i) = [ssd_of r_sub_fac r_i].
Proof.
  unfold body_effect. cbn [concat_states fold_right app_state ssd_array new_call new_line
                           new_file new_ssd new_smd initial].
  destruct plotting; [|reflexivity].
  destruct (plot_effect_no_records (pid_of r_i) r_i (ssd_of r_sub_fac r_i)
              (P_coeffs_of r_sub_fac r_i)) as (-> & _ & _).
  reflexivity.
Qed.

Lemma body_effect_smd plotting r_sub_fac r_i :
  smd_array (body_effect plotting r_sub_fac r_i) = [smd_of r_sub_fac r_i].
Proof.
  unfold body_effect. cbn [concat_states fold_right app_state smd_array new_call new_line
                           new_file new_ssd new_smd initial].
  destruct plotting; [|reflexivity].
  destruct (plot_effect_no_records (pid_of r_i) r_i (ssd_of r_sub_fac r_i)
              (P_coeffs_of r_sub_fac r_i)) as (_ & -> & _).
  reflexivity.
Qed.

Lemma body_effect_calls plotting r_sub_fac r_i :
  engine_calls (body_effect plotting r_sub_fac r_i) = [engine_args_of r_sub_fac r_i].
Proof.
  unfold body_effect. cbn [concat_states fold_right app_state engine_calls new_call new_line
                           new_file new_ssd new_smd initial].
  destruct plotting; [|reflexivity].
  destruct (plot_effect_no_records (pid_of r_i) r_i (ssd_of r_sub_fac r_i)
              (P_coeffs_of r_sub_fac r_i)) as (_ & _ & ->).
  reflexivity.
Qed.

Lemma body_effect_files plotting r_sub_fac r_i :
  files (body_effect plotting r_sub_fac r_i)
  = figure_files plotting r_sub_fac r_i ++ record_files r_sub_fac r_i.
Proof.
  unfold body_effect, figure_files, record_files.
  cbn [concat_states fold_right app_state files new_call new_line new_file new_ssd new_smd
       initial].
  destruct plotting; simpl; reflexivity.
Qed.

Lemma loop_effect_ssd plotting r_sub_fac radii :
  ssd_array (loop_effect plotting r_sub_fac radii) = map (ssd_of r_sub_fac) radii.
Proof.
  unfold loop_effect. rewrite concat_states_ssd, flat_map_concat_map, map_map,
    <- flat_map_concat_map.
  apply flat_map_singleton. intros r. apply body_effect_ssd.
Qed.

Lemma loop_effect_smd plotting r_sub_fac radii :
  smd_array (loop_effect plotting r_sub_fac radii) = map (smd_of r_sub_fac) radii.
Proof.
  unfold loop_effect. rewrite concat_states_smd, flat_map_concat_map, map_map,
    <- flat_map_concat_map.
  apply flat_map_singleton. intros r. apply body_effect_smd.
Qed.

Lemma loop_effect_calls plotting r_sub_fac radii :
  engine_calls (loop_effect plotting r_sub_fac radii) = map (engine_args_of r_sub_fac) radii.
Proof.
  unfold loop_effect. rewrite concat_states_calls, flat_map_concat_map, map_map,
    <- flat_map_concat_map.
  apply flat_map_singleton. intros r. apply body_effect_calls.
Qed.

Lemma loop_effect_files plotting r_sub_fac radii :
  files (loop_effect plotting r_sub_fac radii)
  = flat_map (fun r => figure_files plotting r_sub_fac r ++ record_files r_sub_fac r) radii.
Proof.
  unfold loop_effect. rewrite concat_states_files, flat_map_concat_map, map_map,
    <- flat_map_concat_map.
  apply flat_map_ext. intros r. apply body_effect_files.
Qed.

Lemma loop_effect_app plotting r_sub_fac done todo :
  loop_effect plotting r_sub_fac (done ++ todo)
  = app_state (loop_effect plotting r_sub_fac done) (loop_effect plotting r_sub_fac todo).
Proof.
  unfold loop_effect. induction done as [|r tl IH]; simpl.
  - rewrite app_state_initial_l. reflexivity.
  - rewrite IH, app_state_assoc. reflexivity.
Qed.

(** *** Where the files go *)

Lemma filter_none {A} (p : A -> bool) (l : list A) :
  Forall (fun x => p x = false) l -> filter p l = [].
Proof.
  induction 1 as [|x tl Hx _ IH]; simpl; [reflexivity|]. rewrite Hx. exact IH.
Qed.

Lemma filter_all {A} (p : A -> bool) (l : list A) :
  Forall (fun x => p x = true) l -> filter p l = l.
Proof.
  induction 1 as [|x tl Hx _ IH]; simpl; [reflexivity|]. rewrite Hx, IH. reflexivity.
Qed.

Lemma plot_effect_files pid r_i ssd P_coeffs :
  files (plot_effect pid r_i ssd P_coeffs)
  = flat_map (fun kf => files (phase_matrix_effect pid r_i ssd P_coeffs kf))
             (enumerate (ssd_f_grid ssd))
    ++ [(optical_properties_path pid, Pdf (optical_properties_figure pid ssd));
        (normalization_path pid, Pdf (normalization_figure pid ssd))].
Proof.
  unfold plot_effect.
  cbn [concat_states fold_right app_state files new_line new_file initial].
  rewrite concat_states_files, flat_map_concat_map, map_map, <- flat_map_concat_map.
  reflexivity.
Qed.

Lemma phase_matrix_path_below pid f_k : prefix plotfolder (phase_matrix_path pid f_k) = true.
Proof.
  unfold phase_matrix_path, pha_mat_folder_of, path_join. cbn.
  match goal with |- context [if ?b then _ else _] => destruct b end; reflexivity.
Qed.

(** Every file the plotting block writes is a figure below the plot folder. *)
Lemma figure_files_below plotting r_sub_fac r_i :
  Forall (fun f => is_pdf f = true /\ below plotfolder f = true)
         (figure_files plotting r_sub_fac r_i).
Proof.
  unfold figure_files. destruct plotting; [|constructor].
  rewrite plot_effect_files. apply Forall_app. split.
  - apply Forall_forall. intros f Hf. apply in_flat_map in Hf.
    destruct Hf as ([k f_k] & _ & Hf). unfold phase_matrix_effect in Hf.
    destruct (0 <? k mod 10)%nat; simpl in Hf; [contradiction|].
    destruct Hf as [<-|[]]. split; [reflexivity|]. apply phase_matrix_path_below.
  - repeat constructor.
Qed.

Lemma pdf_is_no_record (f : string * file_content) :
  is_pdf f = true -> is_record_file f = false /\ is_archive f = false.
Proof.
  destruct f as [path c]. unfold is_pdf, is_record_file, is_archive.
  destruct c; simpl; intros Hf; split; solve [reflexivity | discriminate Hf].
Qed.

Lemma filter_flat_map {A B} (p : B -> bool) (f : A -> list B) (l : list A) :
  filter p (flat_map f l) = flat_map (fun x => filter p (f x)) l.
Proof.
  induction l as [|x tl IH]; simpl; [reflexivity|]. rewrite filter_app, IH. reflexivity.
Qed.

Lemma record_files_of_radius plotting r_sub_fac r_i :
  filter is_record_file (figure_files plotting r_sub_fac r_i ++ record_files r_sub_fac r_i)
  = record_files r_sub_fac r_i.
Proof.
  rewrite filter_app, filter_none; [reflexivity|].
  eapply Forall_impl; [|apply figure_files_below].
  intros f [Hf _]. apply pdf_is_no_record, Hf.
Qed.

Lemma archives_of_radius plotting r_sub_fac r_i :
  filter is_archive (figure_files plotting r_sub_fac r_i ++ record_files r_sub_fac r_i) = [].
Proof.
  rewrite filter_app, filter_none; [reflexivity|].
  eapply Forall_impl; [|apply figure_files_below].
  intros f [Hf _]. apply pdf_is_no_record, Hf.
Qed.

Lemma outside_plotfolder_of_radius plotting r_sub_fac r_i :
  filter (fun f => negb (below plotfolder f))
         (figure_files plotting r_sub_fac r_i ++ record_files r_sub_fac r_i)
  = record_files r_sub_fac r_i.
Proof.
  rewrite filter_app, filter_none; [reflexivity|].
  eapply Forall_impl; [|apply figure_files_below].
  intros f [_ Hf]. rewrite Hf. reflexivity.
Qed.

Lemma after_radii_files plotting r_sub_fac done :
  files (after_radii plotting r_sub_fac done)
  = flat_map (fun r => figure_files plotting r_sub_fac r ++ record_files r_sub_fac r) done.
Proof. unfold after_radii. simpl. apply loop_effect_files. Qed.

Lemma after_radii_record_files plotting r_sub_fac done :
  filter is_record_file (files (after_radii plotting r_sub_fac done))
  = flat_map (record_files r_sub_fac) done.
Proof.
  rewrite after_radii_files, filter_flat_map. apply flat_map_ext.
  intros r. apply record_files_of_radius.
Qed.

Lemma after_radii_ssd plotting r_sub_fac done :
  ssd_array (after_radii plotting r_sub_fac done) = map (ssd_of r_sub_fac) done.
Proof. unfold after_radii. simpl. apply loop_effect_ssd. Qed.

Lemma after_radii_smd plotting r_sub_fac done :
  smd_array (after_radii plotting r_sub_fac done) = map (smd_of r_sub_fac) done.
Proof. unfold after_radii. simpl. apply loop_effect_smd. Qed.

Lemma after_radii_calls plotting r_sub_fac done :
  engine_calls (after_radii plotting r_sub_fac done) = map (engine_args_of r_sub_fac) done.
Proof. unfold after_radii. simpl. apply loop_effect_calls. Qed.

Lemma after_radii_app plotting r_sub_fac done todo :
  after_radii plotting r_sub_fac (done ++ todo)
  = app_state (after_radii plotting r_sub_fac done) (loop_effect plotting r_sub_fac todo).
Proof. unfold after_radii. rewrite loop_effect_app, app_state_assoc. reflexivity. Qed.

(** The files at the end: those of the radii, then the two archives. *)
Lemma final_state_files plotting radii :
  files (final_state plotting radii)
  = flat_map (fun r => figure_files plotting (r_sub_fac N_sub (dlog_r radii)) r
                       ++ record_files (r_sub_fac N_sub (dlog_r radii)) r) radii
    ++ [(ssd_archive_path,
         SsdArchive "binary" [map (ssd_of (r_sub_fac N_sub (dlog_r radii))) radii]);
        (smd_archive_path,
         SmdArchive "binary" [map (smd_of (r_sub_fac N_sub (dlog_r radii))) radii])].
Proof.
  unfold final_state.
  cbn [app_state files new_file].
  rewrite after_radii_files, after_radii_ssd, after_radii_smd. reflexivity.
Qed.

Lemma final_state_ssd plotting radii :
  ssd_array (final_state plotting radii) = map (ssd_of (r_sub_fac N_sub (dlog_r radii))) radii.
Proof.
  unfold final_state. cbn [app_state ssd_array new_file].
  rewrite !app_nil_r. apply after_radii_ssd.
Qed.

Lemma final_state_smd plotting radii :
  smd_array (final_state plotting radii) = map (smd_of (r_sub_fac N_sub (dlog_r radii))) radii.
Proof.
  unfold final_state. cbn [app_state smd_array new_file].
  rewrite !app_nil_r. apply after_radii_smd.
Qed.

Lemma final_state_calls plotting radii :
  engine_calls (final_state plotting radii)
  = map (engine_args_of (r_sub_fac N_sub (dlog_r radii))) radii.
Proof.
  unfold final_state. cbn [app_state engine_calls new_file].
  rewrite !app_nil_r. apply after_radii_calls.
Qed.

Lemma not_below_not_equal (folder path : string) (f : string * file_content) :
  below folder f = true -> prefix folder path = false -> (fst f =? path)%string = false.
Proof.
  unfold below. intros Hf Hpath. destruct (fst f =? path)%string eqn:E; [|reflexivity].
  apply String.eqb_eq in E. congruence.
Qed.

(** No file of a radius has the name of an archive. *)
Lemma no_write_to_archive_in_loop plotting r_sub_fac radii (path : string) :
  path = ssd_archive_path \/ path = smd_archive_path ->
  filter (fun f => (fst f =? path)%string)
         (flat_map (fun r => figure_files plotting r_sub_fac r ++ record_files r_sub_fac r)
                   radii) = [].
Proof.
  intros Hpath. rewrite filter_flat_map. apply flat_map_nil. intros r.
  rewrite filter_app, filter_none.
  - destruct Hpath as [-> | ->]; reflexivity.
  - eapply Forall_impl; [|apply figure_files_below].
    intros f [_ Hf]. eapply not_below_not_equal; [exact Hf|].
    destruct Hpath as [-> | ->]; reflexivity.
Qed.

(** C4: after the loop each of the two arrays is put, whole, into an outer
    array of length 1, and each outer array is saved once, with
    [format="binary"]: the two archives are the last two files of the run,
    no other file is an archive, and nothing else is written to their
    names. *)
Theorem archives_wrapped_and_saved_once (plotting : bool) (radii : list Q) :
  let r_sub_fac := r_sub_fac N_sub (dlog_r radii) in
  let s := after_radii plotting r_sub_fac radii in
  let ssd_array_sqr := [ssd_array s] in
  let smd_array_sqr := [smd_array s] in
  script plotting radii initial = (final_state plotting radii, inr tt)
  /\ radius_loop plotting r_sub_fac radii before_loop = (s, inr tt)
  /\ ssd_array s = map (ssd_of r_sub_fac) radii
  /\ smd_array s = map (smd_of r_sub_fac) radii
  /\ length ssd_array_sqr = 1%nat
  /\ length smd_array_sqr = 1%nat
  /\ files (final_state plotting radii)
     = files s ++ [(ssd_archive_path, SsdArchive "binary" ssd_array_sqr);
                   (smd_archive_path, SmdArchive "binary" smd_array_sqr)]
  /\ filter is_archive (files (final_state plotting radii))
     = [(ssd_archive_path, SsdArchive "binary" ssd_array_sqr);
        (smd_archive_path, SmdArchive "binary" smd_array_sqr)]
  /\ writes_to ssd_archive_path (files (final_state plotting radii)) = 1%nat
  /\ writes_to smd_archive_path (files (final_state plotting radii)) = 1%nat.
Proof.
  intros rsf s ssd_array_sqr smd_array_sqr.
  split; [apply script_run|].
  split; [apply radius_loop_run|].
  split; [apply after_radii_ssd|].
  split; [apply after_radii_smd|].
  split; [reflexivity|]. split; [reflexivity|].
  split; [reflexivity|].
  assert (Hfiles : files (final_state plotting radii)
                   = files s ++ [(ssd_archive_path, SsdArchive "binary" ssd_array_sqr);
                                 (smd_archive_path, SmdArchive "binary" smd_array_sqr)])
    by reflexivity.
  rewrite Hfiles. unfold writes_to. rewrite !filter_app.
  subst s. rewrite after_radii_files.
  rewrite filter_flat_map, (flat_map_nil (fun x => filter is_archive _))
    by (intros r; apply archives_of_radius).
  rewrite !no_write_to_archive_in_loop by auto.
  repeat split.
Qed.

(** C5: the radii are taken one at a time in the ascending order of the
    grid.  After any number of them, [done], the engine has been called once
    per radius of [done], in order, the two arrays hold one record per
    radius of [done], in order and at the same index, and the two files of
    each radius of [done] are written, under names of their own.  Whatever
    follows only appends to that state. *)
Theorem radii_processed_in_order (plotting : bool) :
  let r_sub_fac := r_sub_fac N_sub (dlog_r RadiusGrid.droplet_radii) in
  StronglySorted Qlt RadiusGrid.droplet_radii
  /\ NoDup (flat_map (fun r => [ssd_path r; smd_path r]) RadiusGrid.droplet_radii)
  /\ (forall done,
        let s := after_radii plotting r_sub_fac done in
        radius_loop plotting r_sub_fac done before_loop = (s, inr tt)
        /\ map arg_r (engine_calls s) = done
        /\ ssd_array s = map (ssd_of r_sub_fac) done
        /\ smd_array s = map (smd_of r_sub_fac) done
        /\ length (ssd_array s) = length done
        /\ length (smd_array s) = length (ssd_array s)
        /\ filter is_record_file (files s)
           = flat_map (fun r => [(ssd_path r, SsdXml (ssd_of r_sub_fac r));
                                 (smd_path r, SmdXml (smd_of r_sub_fac r))]) done)
  /\ (forall done todo,
        after_radii plotting r_sub_fac (done ++ todo)
        = app_state (after_radii plotting r_sub_fac done)
                    (loop_effect plotting r_sub_fac todo))
  /\ script plotting RadiusGrid.droplet_radii initial
     = (final_state plotting RadiusGrid.droplet_radii, inr tt)
  /\ final_state plotting RadiusGrid.droplet_radii
     = app_state (after_radii plotting r_sub_fac RadiusGrid.droplet_radii)
         (app_state
            (new_file ssd_archive_path
               (SsdArchive "binary" [map (ssd_of r_sub_fac) RadiusGrid.droplet_radii]))
            (new_file smd_archive_path
               (SmdArchive "binary" [map (smd_of r_sub_fac) RadiusGrid.droplet_radii]))).
Proof.
  intros rsf.
  split; [apply RadiusGridFacts.strictly_increasingb_sound; vm_compute; reflexivity|].
  split.
  { apply nodupb_sound. vm_compute. reflexivity. }
  split.
  { intros done s. subst s.
    split; [apply radius_loop_run|].
    rewrite after_radii_calls, after_radii_ssd, after_radii_smd, after_radii_record_files,
      !length_map, map_map.
    split; [apply map_id|]. repeat split. }
  split; [intros done todo; apply after_radii_app|].
  split; [apply script_run|].
  unfold final_state. rewrite after_radii_ssd, after_radii_smd. reflexivity.
Qed.

(** C6: every engine call of the run passes [ignore_limit=True], once per
    radius.  With that flag the engine returns the best-effort records of
    the averaged samples whether or not a sample left the stable regime of
    the solver, so the run ends without an error and these records are the
    ones in the array.  Without the flag an unstable sample is fatal. *)
Theorem instability_tolerated (plotting : bool) (radii : list Q) :
  let r_sub_fac := r_sub_fac N_sub (dlog_r radii) in
  let run := script plotting radii initial in
  Forall (fun args => arg_ignore_limit args = true) (engine_calls (fst run))
  /\ map arg_r (engine_calls (fst run)) = radii
  /\ snd run = inr tt
  /\ ssd_array (fst run)
     = map (fun r => fst (fst (averaged_records (engine_args_of r_sub_fac r)))) radii
  /\ (forall args, arg_ignore_limit args = true ->
        calc_arts_scattering_data args = inr (averaged_records args))
  /\ (forall args, arg_ignore_limit args = false -> unstable args = true ->
        calc_arts_scattering_data args = inl SolverInstability).
Proof.
  intros rsf run. subst run rsf. rewrite script_run. cbn [fst snd].
  rewrite final_state_calls, final_state_ssd, map_map.
  split.
  { apply Forall_forall. intros args Hin. apply in_map_iff in Hin.
    destruct Hin as (r & Heq & _). subst args. reflexivity. }
  split; [apply map_id|].
  split; [reflexivity|].
  split; [reflexivity|].
  split.
  - intros args Hil. unfold calc_arts_scattering_data. rewrite Hil. reflexivity.
  - intros args Hil Hun. unfold calc_arts_scattering_data. rewrite Hil, Hun. reflexivity.
Qed.

Lemma read_file_outside (folder path : string) (fs : list (string * file_content)) :
  prefix folder path = false ->
  read_file path fs = read_file path (filter (fun f => negb (below folder f)) fs).
Proof.
  intros Hpath. unfold read_file. generalize (@None file_content).
  induction fs as [|f tl IH]; intros acc; simpl; [reflexivity|].
  destruct (below folder f) eqn:Hf; simpl.
  - rewrite (not_below_not_equal folder path f Hf Hpath). apply IH.
  - apply IH.
Qed.

Lemma figure_files_off r_sub_fac r_i : figure_files false r_sub_fac r_i = [].
Proof. reflexivity. Qed.

(** Outside the plot folder the files at the end are those of the records
    and the archives, whatever the flag. *)
Lemma final_state_outside_plotfolder plotting radii :
  filter (fun f => negb (below plotfolder f)) (files (final_state plotting radii))
  = files (final_state false radii).
Proof.
  rewrite !final_state_files, filter_app, filter_flat_map.
  f_equal. apply flat_map_ext. intros r.
  rewrite outside_plotfolder_of_radius. reflexivity.
Qed.

(** C9: two runs that differ in the plotting flag only both end without an
    error, with the same two arrays, the same record files and the same
    archives; what the run with plots writes outside the plot folder is, in
    order, what the run without plots writes, and every path outside the
    plot folder holds the same in the end. *)
Theorem plotting_leaves_data_unchanged (radii : list Q) :
  let on := script true radii initial in
  let off := script false radii initial in
  snd on = inr tt /\ snd off = inr tt
  /\ ssd_array (fst on) = ssd_array (fst off)
  /\ smd_array (fst on) = smd_array (fst off)
  /\ engine_calls (fst on) = engine_calls (fst off)
  /\ filter is_record_file (files (fst on)) = filter is_record_file (files (fst off))
  /\ filter is_archive (files (fst on)) = filter is_archive (files (fst off))
  /\ filter (fun f => negb (below plotfolder f)) (files (fst on)) = files (fst off)
  /\ (forall path, prefix plotfolder path = false ->
        read_file path (files (fst on)) = read_file path (files (fst off))).
Proof.
  intros on off. subst on off. rewrite !script_run. cbn [fst snd].
  split; [reflexivity|]. split; [reflexivity|].
  rewrite !final_state_ssd, !final_state_smd, !final_state_calls.
  split; [reflexivity|]. split; [reflexivity|]. split; [reflexivity|].
  split.
  { rewrite !final_state_files, !filter_app, !filter_flat_map. f_equal.
    apply flat_map_ext. intros r. rewrite !record_files_of_radius. reflexivity. }
  split.
  { rewrite !final_state_files, !filter_app, !filter_flat_map. f_equal.
    apply flat_map_ext. intros r. rewrite !archives_of_radius. reflexivity. }
  split; [apply final_state_outside_plotfolder|].
  intros path Hpath.
  rewrite (read_file_outside plotfolder path (files (final_state true radii)) Hpath).
  rewrite final_state_outside_plotfolder. reflexivity.
Qed.

Lemma map_fst_flat_map_record_files r_sub_fac radii :
  map fst (flat_map (record_files r_sub_fac) radii)
  = flat_map (fun r => [ssd_path r; smd_path r]) radii.
Proof.
  induction radii as [|r tl IH]; simpl; [reflexivity|]. rewrite IH. reflexivity.
Qed.

(** C7: the identifier of a radius is [MieSphere_R], the radius in
    micrometres in the [e] presentation with five decimals, and [um]; the
    identifiers of the grid are safe file names and pairwise distinct.  The
    records of a radius are written to [<identifier>.xml] and
    [<identifier>.meta.xml] in the data folder, and the archives to
    [MieSpheres_H2O_liquid.xml] and [MieSpheres_H2O_liquid.meta.xml] in the
    folder of the array format. *)
Theorem files_named_from_radius_and_material (plotting : bool) (radii : list Q) :
  (forall r, pid_of r = "MieSphere_R" ++ format_e 5 (r * 1000000) ++ "um")%string
  /\ pid_of (1 # 10000000) = "MieSphere_R1.00000e-01um"%string
  /\ pid_of (4 # 1000) = "MieSphere_R4.00000e+03um"%string
  /\ NoDup (map pid_of RadiusGrid.droplet_radii)
  /\ forallb filename_safe (map pid_of RadiusGrid.droplet_radii) = true
  /\ (forall r, ssd_path r = datafolder ++ pid_of r ++ ".xml"
                /\ smd_path r = datafolder ++ pid_of r ++ ".meta.xml")%string
  /\ map fst (filter is_record_file (files (fst (script plotting radii initial))))
     = flat_map (fun r => [ssd_path r; smd_path r]) radii
  /\ (ssd_archive_path = datafolder_arrayformat ++ "MieSpheres_" ++ material ++ ".xml"
      /\ smd_archive_path
         = datafolder_arrayformat ++ "MieSpheres_" ++ material ++ ".meta.xml")%string
  /\ ssd_archive_path
     = "../scattering_data/fullrange/ArrayFormat/H2O_liquid/MieSpheres_H2O_liquid.xml"%string
  /\ smd_archive_path
     = "../scattering_data/fullrange/ArrayFormat/H2O_liquid/MieSpheres_H2O_liquid.meta.xml"%string
  /\ map fst (filter is_archive (files (fst (script plotting radii initial))))
     = [ssd_archive_path; smd_archive_path].
Proof.
  split; [reflexivity|].
  split; [vm_compute; reflexivity|].
  split; [vm_compute; reflexivity|].
  split; [apply nodupb_sound; vm_compute; reflexivity|].
  split; [vm_compute; reflexivity|].
  split; [intros r; split; reflexivity|].
  rewrite script_run. cbn [fst].
  rewrite final_state_files, !filter_app, !filter_flat_map.
  rewrite (flat_map_ext _ (record_files (r_sub_fac N_sub (dlog_r radii))))
    by (intros r; apply record_files_of_radius).
  rewrite (flat_map_nil (fun x => filter is_archive _))
    by (intros r; apply archives_of_radius).
  split.
  { cbn [filter is_record_file snd]. rewrite app_nil_r.
    apply map_fst_flat_map_record_files. }
  split; [split; reflexivity|].
  split; [reflexivity|]. split; [reflexivity|].
  reflexivity.
Qed.

Lemma in_filter_nil {A} (p : A -> bool) (l : list A) (x : A) :
  In x l -> p x = true -> filter p l = [] -> False.
Proof.
  intros Hin Hp Hnil. assert (Hx : In x (filter p l)) by (apply filter_In; auto).
  rewrite Hnil in Hx. exact Hx.
Qed.

(** Without plots no figure is written. *)
Lemma no_figure_without_plotting radii :
  filter is_pdf (files (final_state false radii)) = [].
Proof.
  rewrite final_state_files, filter_app, filter_flat_map.
  rewrite flat_map_nil by (intros r; reflexivity). reflexivity.
Qed.

Lemma not_reported_without_plotting radii r :
  ~ normalization_reported (files (fst (script false radii initial)))
      (r_sub_fac N_sub (dlog_r radii)) r.
Proof.
  unfold normalization_reported. rewrite script_run. cbn [fst]. intros Hin.
  eapply in_filter_nil with (p := is_pdf);
    [exact Hin | reflexivity | apply no_figure_without_plotting].
Qed.

Lemma in_flat_map_records plotting r_sub_fac radii r f :
  In r radii -> In f (record_files r_sub_fac r) ->
  In f (flat_map (fun r => figure_files plotting r_sub_fac r ++ record_files r_sub_fac r)
                 radii).
Proof.
  intros Hr Hf. apply in_flat_map. exists r. split; [exact Hr|].
  apply in_or_app. right. exact Hf.
Qed.

(** C3, as the script has it: the records of every radius are saved
    whatever the phase function integrals are and whatever the flag is; with
    plots, the figure of the normalization check of every radius is written,
    and its curve is [(integral / 2 - 1) * 100], one value per frequency of
    the integral; without plots no figure is written, so the check is not
    made. *)
Theorem normalization_reported_when_plotting (plotting : bool) (radii : list Q) (r : Q) :
  In r radii ->
  let r_sub_fac := r_sub_fac N_sub (dlog_r radii) in
  let run := script plotting radii initial in
  let ssd := ssd_of r_sub_fac r in
  snd run = inr tt
  /\ In (ssd_path r, SsdXml ssd) (files (fst run))
  /\ In (smd_path r, SmdXml (smd_of r_sub_fac r)) (files (fst run))
  /\ (plotting = true -> normalization_reported (files (fst run)) r_sub_fac r)
  /\ map ydata (panels (normalization_figure (pid_of r) ssd))
     = [map (fun v => (v / 2 - 1) * 100)%R (fst (integrate_phasefunction_for_testing ssd))]
  /\ (plotting = false -> filter is_pdf (files (fst run)) = []).
Proof.
  intros Hr rsf run ssd. subst run. rewrite script_run. cbn [fst snd].
  split; [reflexivity|].
  assert (Hoff : plotting = false -> filter is_pdf (files (final_state plotting radii)) = [])
    by (intros ->; apply no_figure_without_plotting).
  rewrite final_state_files in *. fold rsf.
  split.
  { apply in_or_app. left. apply in_flat_map_records with (r := r); [exact Hr|].
    left. reflexivity. }
  split.
  { apply in_or_app. left. apply in_flat_map_records with (r := r); [exact Hr|].
    right. left. reflexivity. }
  split.
  { intros ->. unfold normalization_reported. apply in_or_app. left.
    apply in_flat_map. exists r. split; [exact Hr|].
    apply in_or_app. left. unfold figure_files. rewrite plot_effect_files.
    apply in_or_app. right. right. left. reflexivity. }
  split.
  { unfold normalization_figure, normalization_deviation.
    destruct (integrate_phasefunction_for_testing ssd) as [integral rest]. reflexivity. }
  exact Hoff.
Qed.

End WithCollaborators.

(** With a solver that is unstable at every radius, the call for the first
    radius of the grid returns. *)
Lemma instability_tolerated_witness :
  let args := @engine_args_of Samples.unstable_solver [1%R] (1 # 10000000) in
  arg_ignore_limit args = true
  /\ @unstable Samples.unstable_solver args = true
  /\ @calc_arts_scattering_data Samples.unstable_solver args
     = inr (@averaged_records Samples.unstable_solver args).
Proof.
  intros args. split; [reflexivity|]. split; [reflexivity|].
  apply (proj1 (proj2 (proj2 (proj2 (proj2
           (@instability_tolerated Samples.unstable_solver true [1 # 10000000])))))).
  reflexivity.
Defined.

(** The archive of the records is outside the plot folder, and holds the
    same with and without plots. *)
Lemma plotting_leaves_data_unchanged_witness :
  prefix plotfolder ssd_archive_path = false
  /\ read_file ssd_archive_path
       (files (fst (@script Samples.unstable_solver true RadiusGrid.droplet_radii initial)))
     = read_file ssd_archive_path
       (files (fst (@script Samples.unstable_solver false RadiusGrid.droplet_radii initial))).
Proof.
  split; [reflexivity|].
  apply (proj2 (proj2 (proj2 (proj2 (proj2 (proj2 (proj2 (proj2
           (@plotting_leaves_data_unchanged Samples.unstable_solver
              RadiusGrid.droplet_radii))))))))).
  reflexivity.
Defined.

(** C3 for every value of the flag fails: without plots the check is
    reported for no radius, the first of the grid for one. *)
Lemma normalization_not_reported_without_plotting :
  ~ (forall plotting r, In r RadiusGrid.droplet_radii ->
       @normalization_reported Samples.unstable_solver
         (files (fst (@script Samples.unstable_solver plotting RadiusGrid.droplet_radii
                        initial)))
         (r_sub_fac N_sub (dlog_r RadiusGrid.droplet_radii)) r).
Proof.
  intros Hall.
  apply (@not_reported_without_plotting Samples.unstable_solver RadiusGrid.droplet_radii
           (4 # 40000000)).
  apply Hall. vm_compute. left. reflexivity.
Qed.

(** With plots, the check of the first radius of the grid is reported, and
    its records are saved. *)
Lemma normalization_reported_when_plotting_witness :
  In (1 # 10000000) [1 # 10000000; 15 # 100000000]
  /\ @normalization_reported Samples.unstable_solver
       (files (fst (@script Samples.unstable_solver true
                      [1 # 10000000; 15 # 100000000] initial)))
       (r_sub_fac N_sub (dlog_r [1 # 10000000; 15 # 100000000])) (1 # 10000000).
Proof.
  assert (Hr : In (1 # 10000000) [1 # 10000000; 15 # 100000000]) by (left; reflexivity).
  split; [exact Hr|].
  apply (proj1 (proj2 (proj2 (proj2
           (@normalization_reported_when_plotting Samples.unstable_solver true
              [1 # 10000000; 15 # 100000000] (1 # 10000000) Hr))))).
  reflexivity.
Defined.

End RunFacts.

(** ** The engine with one sample per radius *)

Module EngineFacts.

Import Data Engine Numpy Script.
Local Open Scope R_scope.

Section WithCollaborators.
Context `{Collaborators}.

Lemma tensor_mean_single (t : list R) : tensor_mean [t] = t.
Proof.
  unfold tensor_mean. simpl. rewrite <- (map_id t) at 2.
  apply map_ext. intros x. field.
Qed.

(** With the factor 1 alone, the engine is the unaveraged evaluation. *)
Lemma calc_with_factor_one (args : engine_args) :
  arg_r_sub_fac args = [1] ->
  calc_arts_scattering_data args = unaveraged_evaluation args.
Proof.
  intros Hfac.
  unfold calc_arts_scattering_data, unaveraged_evaluation, unstable, averaged_records,
    sub_radius_samples.
  rewrite Hfac. cbn [map existsb].
  rewrite Rmult_1_r, !tensor_mean_single, orb_false_r. reflexivity.
Qed.

(** C2: the script sets [N_sub = 1]; with one sample the factors are the
    single factor 1, and the engine called with them evaluates the solver
    once, at the radius itself, and packages that output unaveraged. *)
Theorem single_sample_is_unaveraged :
  N_sub = 1%nat
  /\ (forall dlog, r_sub_fac 1 dlog = [1])
  /\ (forall f_grid t_grid za_grid r_i m rho ignore_limit text dlog,
        let args :=
          {| arg_f_grid := f_grid; arg_t_grid := t_grid; arg_za_grid := za_grid;
             arg_r := r_i; arg_r_sub_fac := r_sub_fac 1 dlog; arg_m := m;
             arg_rho := rho; arg_ignore_limit := ignore_limit;
             arg_ref_index_text := text |} in
        calc_arts_scattering_data args = unaveraged_evaluation args)
  /\ (forall radii r_i,
        let args := Run.engine_args_of (r_sub_fac N_sub (dlog_r radii)) r_i in
        calc_arts_scattering_data args = unaveraged_evaluation args).
Proof.
  split; [reflexivity|].
  split; [exact GridFacts.r_sub_fac_single|].
  split.
  - intros. apply calc_with_factor_one. apply GridFacts.r_sub_fac_single.
  - intros. apply calc_with_factor_one. apply GridFacts.r_sub_fac_single.
Qed.

End WithCollaborators.

End EngineFacts.

(** ** The bin width and the sub-radius factors for any number of samples *)

Module SubRadiusFacts.

Import Numpy Script.
Local Open Scope R_scope.

Lemma last_nonempty {A} (z : A) (tl : list A) (d d' : A) :
  last (z :: tl) d = last (z :: tl) d'.
Proof.
  revert z. induction tl as [|y tl IH]; intros z; [reflexivity|].
  change (last (y :: tl) d = last (y :: tl) d'). apply IH.
Qed.

Lemma sum_diff (x : R) (l : list R) : fold_right Rplus 0 (diff (x :: l)) = last l x - x.
Proof.
  revert x. induction l as [|y tl IH]; intros x.
  - simpl. lra.
  - change (diff (x :: y :: tl)) with ((y - x) :: diff (y :: tl)).
    cbn [fold_right]. rewrite IH.
    destruct tl as [|z tl'].
    + simpl. lra.
    + change (last (y :: z :: tl') x) with (last (z :: tl') x).
      rewrite (last_nonempty z tl' y x). lra.
Qed.

Lemma diff_length (x : R) (l : list R) : length (diff (x :: l)) = length l.
Proof.
  revert x. induction l as [|y tl IH]; intros x; [reflexivity|].
  change (diff (x :: y :: tl)) with ((y - x) :: diff (y :: tl)).
  cbn [length]. rewrite IH. reflexivity.
Qed.

Lemma last_map_default {A B} (f : A -> B) (l : list A) (d : A) :
  last (map f l) (f d) = f (last l d).
Proof.
  induction l as [|x [|y tl] IH]; try reflexivity.
  change (last (map f (y :: tl)) (f d) = f (last (y :: tl) d)). exact IH.
Qed.

(** The mean of the differences telescopes: the bin width is the distance
    from the first to the last radius in [log10], over the number of bins. *)
Theorem dlog_r_telescopes (r0 r1 : Q) (rest : list Q) :
  dlog_r (r0 :: r1 :: rest)
  = (log10 (Q2R (last (r1 :: rest) r0)) - log10 (Q2R r0)) / INR (length (r1 :: rest)).
Proof.
  unfold dlog_r, mean.
  change (map (fun r => log10 (Q2R r)) (r0 :: r1 :: rest))
    with (log10 (Q2R r0) :: map (fun r => log10 (Q2R r)) (r1 :: rest)).
  rewrite sum_diff, diff_length, length_map.
  rewrite (last_map_default (fun r => log10 (Q2R r)) (r1 :: rest) r0). reflexivity.
Qed.

(** The factors in closed form: sample [i] of [N] sits at the midpoint of
    the [i]-th of [N] equal parts of the bin. *)
Lemma r_sub_fac_midpoints (n : nat) (dlog : R) :
  r_sub_fac (S n) dlog
  = map (fun i => pow10 (((2 * INR i + 1) / (2 * INR (S n)) - 1 / 2) * dlog)) (seq 0 (S n)).
Proof.
  unfold r_sub_fac. destruct n as [|n].
  - unfold linspace. simpl. f_equal. f_equal. lra.
  - rewrite GridFacts.linspace_arithmetic, map_map. apply map_ext. intros i.
    apply (f_equal pow10). apply (f_equal (fun v => v * dlog)).
    assert (H1 : INR (S n) <> 0) by (apply not_0_INR; lia).
    assert (H2 : INR (S (S n)) <> 0) by (apply not_0_INR; lia).
    rewrite (S_INR (S n)) in *. replace 0.5 with (1 / 2) by lra. field. split; lra.
Qed.

Lemma nth_map_seq (g : nat -> R) (n i : nat) (d : R) :
  (i < n)%nat -> nth i (map g (seq 0 n)) d = g i.
Proof.
  intros Hi. rewrite (nth_indep _ d (g 0%nat)) by (rewrite length_map, length_seq; exact Hi).
  rewrite map_nth, seq_nth by exact Hi. reflexivity.
Qed.

(** The exponent of sample [i] of [N], in units of the bin width. *)
Lemma midpoint_offset_bounds (n i : nat) :
  (i < S n)%nat -> -1 / 2 < (2 * INR i + 1) / (2 * INR (S n)) - 1 / 2 < 1 / 2.
Proof.
  intros Hi.
  assert (HN : 0 < INR (S n)) by (apply lt_0_INR; lia).
  assert (Hi0 : 0 <= INR i) by apply pos_INR.
  assert (HiN : INR i + 1 <= INR (S n)).
  { rewrite <- S_INR. apply le_INR. lia. }
  assert (H0 : 0 < (2 * INR i + 1) / (2 * INR (S n))).
  { apply Rdiv_lt_0_compat; lra. }
  assert (H1 : (2 * INR i + 1) / (2 * INR (S n)) < 1).
  { apply Rmult_lt_reg_r with (2 * INR (S n)); [lra|].
    unfold Rdiv. rewrite Rmult_assoc, Rinv_l by lra. lra. }
  lra.
Qed.

(** There are [N] factors, at the midpoints of [N] equal parts of the bin
    in [log10]: factor [i] is [10 ** (((2 i + 1) / (2 N) - 1/2) * dlog_r)]. *)
Theorem r_sub_fac_bin_midpoints (n : nat) (dlog : R) :
  length (r_sub_fac (S n) dlog) = S n
  /\ r_sub_fac (S n) dlog
     = map (fun i => pow10 (((2 * INR i + 1) / (2 * INR (S n)) - 1 / 2) * dlog))
           (seq 0 (S n)).
Proof.
  split; [|apply r_sub_fac_midpoints].
  unfold r_sub_fac. rewrite length_map. apply GridFacts.linspace_length.
Qed.

(** For a positive bin width every factor lies strictly inside the bin:
    between [10 ** (- dlog_r / 2)] and [10 ** (dlog_r / 2)]. *)
Theorem r_sub_fac_inside_bin (n : nat) (dlog : R) :
  0 < dlog ->
  Forall (fun s => pow10 (- dlog / 2) < s < pow10 (dlog / 2)) (r_sub_fac (S n) dlog).
Proof.
  intros Hd. rewrite r_sub_fac_midpoints. apply Forall_forall. intros s Hs.
  apply in_map_iff in Hs. destruct Hs as (i & <- & Hi). apply in_seq in Hi.
  destruct (midpoint_offset_bounds n i) as [Hlo Hhi]; [lia|].
  split; apply GridFacts.pow10_increasing; nra.
Qed.

Lemma r_sub_fac_inside_bin_witness :
  0 < 1 /\ Forall (fun s => pow10 (- 1 / 2) < s < pow10 (1 / 2)) (r_sub_fac 3 1).
Proof.
  assert (H : 0 < 1) by lra. split; [exact H|].
  exact (r_sub_fac_inside_bin 2 1 H).
Defined.

(** The factors are symmetric about 1: read backwards they are the
    reciprocals. *)
Theorem r_sub_fac_symmetric (n : nat) (dlog : R) :
  rev (r_sub_fac (S n) dlog) = map Rinv (r_sub_fac (S n) dlog).
Proof.
  rewrite r_sub_fac_midpoints.
  set (g := fun i => pow10 (((2 * INR i + 1) / (2 * INR (S n)) - 1 / 2) * dlog)).
  apply (nth_ext _ _ 0 0).
  - rewrite length_rev, !length_map. reflexivity.
  - intros i Hi. rewrite length_rev, length_map, length_seq in Hi.
    rewrite rev_nth by (rewrite length_map, length_seq; exact Hi).
    rewrite length_map, length_seq.
    rewrite nth_map_seq by lia.
    rewrite (nth_indep _ 0 (/ 0)) by (rewrite !length_map, length_seq; exact Hi).
    rewrite (map_nth Rinv), nth_map_seq by exact Hi.
    unfold g, pow10. rewrite <- Rpower_Ropp. f_equal.
    assert (HN : INR (S n) <> 0) by (apply not_0_INR; lia).
    rewrite minus_INR by lia. rewrite (S_INR i). field. exact HN.
Qed.

(** The bin width is positive when the grid ends above its positive first
    radius, as an ascending grid does. *)
Theorem dlog_r_positive (r0 r1 : Q) (rest : list Q) :
  (0 < r0)%Q -> (r0 < last (r1 :: rest) r0)%Q -> 0 < dlog_r (r0 :: r1 :: rest).
Proof.
  intros H0 Hlast. rewrite dlog_r_telescopes.
  apply Qlt_Rlt in H0. apply Qlt_Rlt in Hlast.
  replace (Q2R 0) with 0 in H0 by (unfold Q2R; simpl; lra).
  apply Rdiv_lt_0_compat.
  - pose proof (GridFacts.log10_increasing _ _ H0 Hlast). lra.
  - apply lt_0_INR. simpl. lia.
Qed.

Lemma dlog_r_positive_witness :
  (0 < 1 # 10000000)%Q /\ (1 # 10000000 < last [15 # 100000000; 175 # 1000000000] (1 # 10000000))%Q
  /\ 0 < dlog_r [1 # 10000000; 15 # 100000000; 175 # 1000000000].
Proof.
  assert (H0 : (0 < 1 # 10000000)%Q) by reflexivity.
  assert (H1 : (1 # 10000000 < last [15 # 100000000; 175 # 1000000000] (1 # 10000000))%Q)
    by reflexivity.
  split; [exact H0|]. split; [exact H1|].
  exact (dlog_r_positive (1 # 10000000) (15 # 100000000) [175 # 1000000000] H0 H1).
Defined.

End SubRadiusFacts.

(** ** The radius grid keeps every candidate once *)

Module RadiusGridCount.

Import RadiusGrid.

Lemma filter_split_permutation {A} (p : A -> bool) (l : list A) :
  Permutation.Permutation (filter p l ++ filter (fun x => negb (p x)) l) l.
Proof.
  induction l as [|x tl IH]; simpl; [constructor|].
  destruct (p x); simpl.
  - constructor. exact IH.
  - apply Permutation.Permutation_sym, Permutation.Permutation_cons_app,
      Permutation.Permutation_sym. exact IH.
Qed.

Lemma ravel_outer_length (xs ys : list Q) :
  length (ravel (outer xs ys)) = (length xs * length ys)%nat.
Proof.
  unfold ravel, outer. induction xs as [|x tl IH]; simpl; [reflexivity|].
  rewrite length_app, length_map, IH. reflexivity.
Qed.

(** The sort and the cut neither lose nor merge candidates: the grid and the
    candidates cut off are, together, the products of the multipliers and
    the decades, each as often as it arises. *)
Theorem grid_and_cut_partition_candidates (xs ys : list Q) :
  Permutation.Permutation (build_radius_grid xs ys ++ removed_candidates xs ys)
                          (ravel (outer xs ys))
  /\ (length (build_radius_grid xs ys) + length (removed_candidates xs ys)
      = length xs * length ys)%nat.
Proof.
  assert (Hperm : Permutation.Permutation
                    (build_radius_grid xs ys ++ removed_candidates xs ys)
                    (ravel (outer xs ys))).
  { unfold build_radius_grid, removed_candidates.
    eapply Permutation.Permutation_trans; [apply filter_split_permutation|].
    apply Permutation.Permutation_sym, QSort.Permuted_sort. }
  split; [exact Hperm|].
  rewrite <- length_app, (Permutation.Permutation_length Hperm). apply ravel_outer_length.
Qed.

End RadiusGridCount.

(** ** What the run writes, and what a path holds afterwards *)

Module RunCount.

Import Data Engine PyFormat Numpy Script Run Effects RunFacts.

Section WithCollaborators.
Context `{Collaborators}.

Lemma next_tenth_same (a : nat) : (0 < a mod 10 -> (a + 10) / 10 = (a + 9) / 10)%nat.
Proof.
  intros Ha.
  pose proof (Nat.div_mod_eq a 10). pose proof (Nat.mod_upper_bound a 10).
  pose proof (Nat.div_mod_eq (a + 10) 10). pose proof (Nat.div_mod_eq (a + 9) 10).
  pose proof (Nat.mod_upper_bound (a + 10) 10). pose proof (Nat.mod_upper_bound (a + 9) 10).
  lia.
Qed.

Lemma next_tenth_more (a : nat) : (a mod 10 <= 0 -> (a + 10) / 10 = (a + 9) / 10 + 1)%nat.
Proof.
  intros Ha.
  pose proof (Nat.div_mod_eq a 10). pose proof (Nat.mod_upper_bound a 10).
  pose proof (Nat.div_mod_eq (a + 10) 10). pose proof (Nat.div_mod_eq (a + 9) 10).
  pose proof (Nat.mod_upper_bound (a + 10) 10). pose proof (Nat.mod_upper_bound (a + 9) 10).
  lia.
Qed.

(** Of the frequencies [a .. a + n - 1], those with a phase matrix figure
    are the multiples of 10. *)
Lemma phase_matrix_figures_from pid r_i ssd P_coeffs (l : list R) (a : nat) :
  length (flat_map (fun kf => files (phase_matrix_effect pid r_i ssd P_coeffs kf))
                   (combine (seq a (length l)) l))
  = ((a + length l + 9) / 10 - (a + 9) / 10)%nat.
Proof.
  revert a. induction l as [|f_k tl IH]; intros a.
  - cbn [length seq combine flat_map]. rewrite Nat.add_0_r. apply eq_sym, Nat.sub_diag.
  - cbn [length seq combine flat_map]. rewrite length_app, IH.
    replace (S a + length tl + 9)%nat with (a + S (length tl) + 9)%nat by lia.
    replace (S a + 9)%nat with (a + 10)%nat by lia.
    assert (Hmono : ((a + 10) / 10 <= (a + S (length tl) + 9) / 10)%nat)
      by (apply Nat.Div0.div_le_mono; lia).
    unfold phase_matrix_effect.
    destruct (0 <? a mod 10)%nat eqn:E.
    + apply Nat.ltb_lt in E. cbn [files initial length].
      rewrite (next_tenth_same a E). reflexivity.
    + apply Nat.ltb_ge in E.
      cbn [files new_directory new_file app_state length app].
      rewrite (next_tenth_more a E) in *.
      lia.
Qed.

(** With plots, a radius gets a phase matrix figure for every tenth
    frequency of its record, from the first on, and two more figures. *)
Theorem figures_per_radius (r_sub_fac : list R) (r_i : Q) :
  length (figure_files true r_sub_fac r_i)
  = ((length (ssd_f_grid (ssd_of r_sub_fac r_i)) + 9) / 10 + 2)%nat.
Proof.
  unfold figure_files. rewrite plot_effect_files, length_app.
  unfold enumerate. rewrite phase_matrix_figures_from.
  cbn [length Nat.add]. rewrite Nat.sub_0_r. reflexivity.
Qed.

Lemma flat_map_length_const {A B} (f : A -> list B) (l : list A) (c : nat) :
  (forall x, length (f x) = c) -> length (flat_map f l) = (c * length l)%nat.
Proof.
  intros Hf. induction l as [|x tl IH]; simpl; [lia|].
  rewrite length_app, Hf, IH. lia.
Qed.

Lemma loop_effect_directories_off r_sub_fac radii :
  directories (loop_effect false r_sub_fac radii) = [].
Proof.
  unfold loop_effect. induction radii as [|r tl IH]; [reflexivity|].
  cbn [map concat_states fold_right app_state directories].
  fold (concat_states (map (body_effect false r_sub_fac) tl)). rewrite IH. reflexivity.
Qed.

(** Without plots the run asks for its three folders and writes two files
    per radius and the two archives, nothing else. *)
Theorem files_without_plots (radii : list Q) :
  let s := fst (script false radii initial) in
  directories s = [datafolder; datafolder_arrayformat; plotfolder]
  /\ length (files s) = (2 * length radii + 2)%nat
  /\ filter is_pdf (files s) = [].
Proof.
  intros s. subst s. rewrite script_run. cbn [fst].
  split.
  { unfold final_state, after_radii.
    cbn [app_state directories new_file before_loop concat_states fold_right new_directory
         initial].
    rewrite loop_effect_directories_off, !app_nil_r. reflexivity. }
  split; [|apply no_figure_without_plotting].
  rewrite final_state_files, length_app.
  rewrite (flat_map_length_const _ radii 2) by (intros r; reflexivity).
  simpl. lia.
Qed.

Lemma fold_other_paths (path : string) (l : list (string * file_content))
    (acc : option file_content) :
  Forall (fun f => (fst f =? path)%string = false) l ->
  fold_left (fun acc f => if (fst f =? path)%string then Some (snd f) else acc) l acc = acc.
Proof.
  intros Hall. revert acc. induction Hall as [|f tl Hf _ IH]; intros acc; simpl;
    [reflexivity|]. rewrite Hf. apply IH.
Qed.

Lemma read_file_app_other (path : string) (l1 l2 : list (string * file_content)) :
  Forall (fun f => (fst f =? path)%string = false) l2 ->
  read_file path (l1 ++ l2) = read_file path l1.
Proof.
  intros Hall. unfold read_file. rewrite fold_left_app. apply fold_other_paths, Hall.
Qed.

(** Under names that are pairwise distinct, a name holds what was written
    to it. *)
Lemma read_file_unique (path : string) (c : file_content)
    (l : list (string * file_content)) :
  NoDup (map fst l) -> In (path, c) l -> read_file path l = Some c.
Proof.
  unfold read_file. generalize (@None file_content).
  induction l as [|[q d] tl IH]; intros acc Hnd Hin; [contradiction|].
  simpl in Hnd. inversion Hnd as [|? ? Hq Hnd']; subst.
  destruct Hin as [Heq | Hin].
  - inversion Heq; subst. simpl. rewrite String.eqb_refl.
    apply fold_other_paths. apply Forall_forall. intros f Hf.
    destruct (fst f =? path)%string eqn:E; [|reflexivity].
    apply String.eqb_eq in E. exfalso. apply Hq. rewrite <- E. apply in_map, Hf.
  - simpl. destruct (q =? path)%string eqn:E.
    + apply String.eqb_eq in E. subst q. exfalso. apply Hq.
      change path with (fst (path, c)). apply in_map, Hin.
    + apply IH; assumption.
Qed.

(** When the names of the record files of the grid are pairwise distinct,
    the file of a radius holds the record of that radius at the end of the
    run, plots or not, and the archive holds the array of all records. *)
Theorem record_files_read_back (plotting : bool) (radii : list Q) (r : Q) :
  nodupb (flat_map (fun r => [ssd_path r; smd_path r]) radii) = true ->
  In r radii ->
  let r_sub_fac := r_sub_fac N_sub (dlog_r radii) in
  let fs := files (fst (script plotting radii initial)) in
  read_file (ssd_path r) fs = Some (SsdXml (ssd_of r_sub_fac r))
  /\ read_file (smd_path r) fs = Some (SmdXml (smd_of r_sub_fac r))
  /\ read_file ssd_archive_path fs = Some (SsdArchive "binary" [map (ssd_of r_sub_fac) radii])
  /\ read_file smd_archive_path fs = Some (SmdArchive "binary" [map (smd_of r_sub_fac) radii]).
Proof.
  intros Hnd Hr rsf fs. subst fs. rewrite script_run. cbn [fst].
  apply nodupb_sound in Hnd. rewrite <- (map_fst_flat_map_record_files rsf) in Hnd.
  assert (Hout : forall path, prefix plotfolder path = false ->
            read_file path (files (final_state plotting radii))
            = read_file path (flat_map (record_files rsf) radii
                              ++ [(ssd_archive_path, SsdArchive "binary" [map (ssd_of rsf) radii]);
                                  (smd_archive_path, SmdArchive "binary" [map (smd_of rsf) radii])])).
  { intros path Hpath. rewrite (read_file_outside plotfolder path _ Hpath).
    rewrite final_state_outside_plotfolder, final_state_files. reflexivity. }
  split.
  { rewrite Hout by reflexivity. rewrite read_file_app_other by (repeat constructor).
    apply read_file_unique; [exact Hnd|].
    apply in_flat_map. exists r. split; [exact Hr | left; reflexivity]. }
  split.
  { rewrite Hout by reflexivity. rewrite read_file_app_other by (repeat constructor).
    apply read_file_unique; [exact Hnd|].
    apply in_flat_map. exists r. split; [exact Hr | right; left; reflexivity]. }
  split.
  { rewrite Hout by reflexivity.
    change (flat_map (record_files rsf) radii ++ [?a; ?b])
      with (flat_map (record_files rsf) radii ++ [a] ++ [b]).
    rewrite app_assoc, read_file_app_other by (repeat constructor).
    unfold read_file. rewrite fold_left_app. cbn [fold_left fst snd].
    rewrite String.eqb_refl. reflexivity. }
  rewrite Hout by reflexivity.
  unfold read_file. rewrite fold_left_app. cbn [fold_left fst snd].
  rewrite String.eqb_refl. reflexivity.
Qed.

Lemma writes_outside (folder path : string) (fs : list (string * file_content)) :
  prefix folder path = false ->
  writes_to path fs = writes_to path (filter (fun f => negb (below folder f)) fs).
Proof.
  intros Hpath. unfold writes_to. induction fs as [|f tl IH]; [reflexivity|].
  cbn [filter]. destruct (below folder f) eqn:Hf; cbn [negb filter].
  - rewrite (not_below_not_equal folder path f Hf Hpath). exact IH.
  - destruct (fst f =? path)%string; cbn [length]; rewrite IH; reflexivity.
Qed.

Lemma string_length_app (a b : string) :
  String.length (a ++ b) = (String.length a + String.length b)%nat.
Proof. induction a as [|c a IH]; simpl; [|rewrite IH]; reflexivity. Qed.

Lemma smd_path_is_no_ssd_path (r r' : Q) :
  pid_of r = pid_of r' -> (smd_path r =? ssd_path r')%string = false.
Proof.
  intros Hpid. destruct (smd_path r =? ssd_path r')%string eqn:E; [|reflexivity].
  apply String.eqb_eq in E. apply (f_equal String.length) in E.
  change (smd_path r) with (datafolder ++ pid_of r ++ ".meta.xml")%string in E.
  change (ssd_path r') with (datafolder ++ pid_of r' ++ ".xml")%string in E.
  rewrite Hpid, !string_length_app in E. simpl in E. lia.
Qed.

(** Two radii with one identifier share their files: both records are
    written to the same two names, which hold the records of the later
    radius in the end, while the arrays, and so the archives, keep both. *)
Theorem equal_identifiers_overwrite (plotting : bool) (r1 r2 : Q) :
  pid_of r1 = pid_of r2 ->
  let r_sub_fac := r_sub_fac N_sub (dlog_r [r1; r2]) in
  let s := fst (script plotting [r1; r2] initial) in
  ssd_array s = [ssd_of r_sub_fac r1; ssd_of r_sub_fac r2]
  /\ smd_array s = [smd_of r_sub_fac r1; smd_of r_sub_fac r2]
  /\ writes_to (ssd_path r1) (files s) = 2%nat
  /\ writes_to (smd_path r1) (files s) = 2%nat
  /\ read_file (ssd_path r1) (files s) = Some (SsdXml (ssd_of r_sub_fac r2))
  /\ read_file (smd_path r1) (files s) = Some (SmdXml (smd_of r_sub_fac r2)).
Proof.
  intros Hpid rsf s. subst s. rewrite script_run. cbn [fst].
  rewrite final_state_ssd, final_state_smd.
  split; [reflexivity|]. split; [reflexivity|].
  assert (Hs : ssd_path r2 = ssd_path r1) by (unfold ssd_path; rewrite Hpid; reflexivity).
  assert (Hm : smd_path r2 = smd_path r1) by (unfold smd_path; rewrite Hpid; reflexivity).
  assert (E1 : (smd_path r1 =? ssd_path r1)%string = false)
    by (apply smd_path_is_no_ssd_path; reflexivity).
  assert (E2 : (ssd_path r1 =? smd_path r1)%string = false)
    by (rewrite String.eqb_sym; exact E1).
  assert (A1 : (ssd_archive_path =? ssd_path r1)%string = false) by reflexivity.
  assert (A2 : (smd_archive_path =? ssd_path r1)%string = false) by reflexivity.
  assert (A3 : (ssd_archive_path =? smd_path r1)%string = false) by reflexivity.
  assert (A4 : (smd_archive_path =? smd_path r1)%string = false) by reflexivity.
  rewrite (writes_outside plotfolder (ssd_path r1) (files (final_state plotting [r1; r2]))),
    (writes_outside plotfolder (smd_path r1) (files (final_state plotting [r1; r2]))),
    (read_file_outside plotfolder (ssd_path r1) (files (final_state plotting [r1; r2]))),
    (read_file_outside plotfolder (smd_path r1) (files (final_state plotting [r1; r2])))
    by reflexivity.
  rewrite final_state_outside_plotfolder, final_state_files.
  fold rsf. unfold writes_to, read_file.
  cbn [flat_map figure_files record_files app filter fold_left fst snd].
  rewrite Hs, Hm, !String.eqb_refl, E1, E2, A1, A2, A3, A4.
  cbn [length]. repeat split.
Qed.

End WithCollaborators.

Lemma record_files_read_back_witness :
  nodupb (flat_map (fun r => [ssd_path r; smd_path r]) [1 # 10000000; 15 # 100000000]) = true
  /\ In (15 # 100000000) [1 # 10000000; 15 # 100000000]
  /\ read_file (ssd_path (15 # 100000000))
       (files (fst (@script Samples.unstable_solver true [1 # 10000000; 15 # 100000000]
                      initial)))
     = Some (SsdXml (@ssd_of Samples.unstable_solver
                       (r_sub_fac N_sub (dlog_r [1 # 10000000; 15 # 100000000]))
                       (15 # 100000000))).
Proof.
  assert (Hnd : nodupb (flat_map (fun r => [ssd_path r; smd_path r])
                          [1 # 10000000; 15 # 100000000]) = true)
    by (vm_compute; reflexivity).
  assert (Hr : In (15 # 100000000) [1 # 10000000; 15 # 100000000])
    by (right; left; reflexivity).
  split; [exact Hnd|]. split; [exact Hr|].
  exact (proj1 (@record_files_read_back Samples.unstable_solver true
                  [1 # 10000000; 15 # 100000000] (15 # 100000000) Hnd Hr)).
Defined.

(** The radii 1e-7 m and 1.0000001e-7 m have one identifier. *)
Lemma equal_identifiers_overwrite_witness :
  pid_of (1 # 10000000) = pid_of (10000001 # 100000000000000)
  /\ writes_to (ssd_path (1 # 10000000))
       (files (fst (@script Samples.unstable_solver false
                      [1 # 10000000; 10000001 # 100000000000000] initial))) = 2%nat.
Proof.
  assert (Hpid : pid_of (1 # 10000000) = pid_of (10000001 # 100000000000000))
    by (vm_compute; reflexivity).
  split; [exact Hpid|].
  exact (proj1 (proj2 (proj2
          (@equal_identifiers_overwrite Samples.unstable_solver false
             (1 # 10000000) (10000001 # 100000000000000) Hpid)))).
Defined.

End RunCount.

(** ** What the figures show *)

Module PlotFacts.

Import Data Numpy Script Run.
Local Open Scope R_scope.

Lemma map_seq_decreasing (g : nat -> R) (n a : nat) :
  (forall i j, (i < j)%nat -> g j < g i) -> StronglySorted Rgt (map g (seq a n)).
Proof.
  intros Hg. revert a. induction n as [|n IH]; intros a; simpl.
  - constructor.
  - constructor; [apply IH|].
    apply Forall_forall. intros y Hy. apply in_map_iff in Hy.
    destruct Hy as (j & <- & Hj). apply in_seq in Hj. apply Hg. lia.
Qed.

Lemma f_grid_geometric :
  f_grid = map (fun i => 1e9 * Rpower (3e15 / 1e9) (INR i / 120)) (seq 0 121).
Proof.
  assert (H120 : INR 120 = 120) by (rewrite INR_IZR_INZ; reflexivity).
  unfold f_grid, N_f, f_min, f_max.
  rewrite (GridFacts.logspace_geometric 1e9 3e15 119) by lra.
  apply map_ext. intros i. rewrite H120. reflexivity.
Qed.

(** The wavelength axis of the refractive index panels runs over the 121
    frequencies from [c0] nm, just under 30 cm, down to just under 100 nm,
    strictly decreasing. *)
Theorem wavelength_axis :
  length (wavelength_nm f_grid) = 121%nat
  /\ StronglySorted Rgt (wavelength_nm f_grid)
  /\ hd 0 (wavelength_nm f_grid) = 299792458
  /\ 0.29e9 < hd 0 (wavelength_nm f_grid) < 0.30e9
  /\ last (wavelength_nm f_grid) 0 = 299792458 / 3e6
  /\ 99.9 < last (wavelength_nm f_grid) 0 < 100.
Proof.
  assert (H120 : INR 120 = 120) by (rewrite INR_IZR_INZ; reflexivity).
  assert (Hq : 0 < 3e15 / 1e9) by lra.
  assert (Hhd : hd 0 (wavelength_nm f_grid) = 299792458).
  { rewrite f_grid_geometric. unfold wavelength_nm. rewrite map_map.
    change (seq 0 121) with (0%nat :: seq 1 120). cbn [map hd].
    replace (INR 0 / 120) with 0 by (simpl; lra).
    rewrite Rpower_O by exact Hq. unfold c0. field. }
  assert (Hlast : last (wavelength_nm f_grid) 0 = 299792458 / 3e6).
  { rewrite f_grid_geometric. unfold wavelength_nm. rewrite map_map.
    change 121%nat with (S 120). rewrite GridFacts.last_map_seq.
    rewrite H120. replace (120 / 120) with 1 by lra.
    rewrite Rpower_1 by exact Hq. unfold c0. field. }
  split.
  { unfold wavelength_nm, f_grid, logspace. rewrite !length_map.
    apply GridFacts.linspace_length. }
  split.
  { rewrite f_grid_geometric. unfold wavelength_nm. rewrite map_map.
    apply map_seq_decreasing. intros i j Hij.
    assert (Hpow : Rpower (3e15 / 1e9) (INR i / 120) < Rpower (3e15 / 1e9) (INR j / 120)).
    { apply Rpower_lt; [lra|]. apply lt_INR in Hij. lra. }
    assert (Hpos : 0 < Rpower (3e15 / 1e9) (INR i / 120)) by apply exp_pos.
    unfold c0. apply Rmult_lt_compat_r; [lra|].
    apply Rmult_lt_compat_l; [lra|].
    apply Rinv_lt_contravar; [|lra].
    apply Rmult_lt_0_compat; nra. }
  split; [exact Hhd|]. split; [rewrite Hhd; lra|].
  split; [exact Hlast|]. rewrite Hlast. lra.
Qed.

Section WithCollaborators.
Context `{Collaborators}.

Lemma map_fst_combine_pairs (xs ys : list R) :
  length xs = length ys ->
  map fst (map (fun p => (fst p, - snd p)) (combine xs ys)) = xs
  /\ map snd (map (fun p => (fst p, - snd p)) (combine xs ys)) = map Ropp ys.
Proof.
  revert ys. induction xs as [|x tl IH]; intros [|y ys] Hlen; try discriminate Hlen.
  - split; reflexivity.
  - simpl in Hlen. injection Hlen as Hlen. destruct (IH ys Hlen) as [H1 H2].
    simpl. rewrite H1, H2. split; reflexivity.
Qed.

(** When the refractive index comes back as two arrays of one length, [m]
    has that length, its real part is the first array and its imaginary part
    the negated second; the panel of the imaginary part shows the absolute
    values of the second array, whatever its signs. *)
Theorem refractive_index_parts (m_r m_i : list R) :
  refactive_index_water_segelstein f_grid = (m_r, m_i) ->
  length m_r = length m_i ->
  length m = length m_r
  /\ map fst m = m_r
  /\ map snd m = map Ropp m_i
  /\ map (fun c => Rabs (snd c)) m = map Rabs m_i.
Proof.
  intros Href Hlen. unfold m. rewrite Href.
  destruct (map_fst_combine_pairs m_r m_i Hlen) as [H1 H2].
  split; [rewrite <- H1 at 2; rewrite !length_map; reflexivity|].
  split; [exact H1|]. split; [exact H2|].
  rewrite <- (map_map snd Rabs), H2, map_map. apply map_ext. intros x. apply Rabs_Ropp.
Qed.

End WithCollaborators.

Lemma refractive_index_parts_witness :
  @refactive_index_water_segelstein Samples.unstable_solver f_grid
  = (map (fun _ => 1.33) f_grid, map (fun _ => 0) f_grid)
  /\ length (map (fun _ : R => 1.33) f_grid) = length (map (fun _ : R => 0) f_grid)
  /\ map fst (@m Samples.unstable_solver) = map (fun _ => 1.33) f_grid.
Proof.
  assert (Href : @refactive_index_water_segelstein Samples.unstable_solver f_grid
                 = (map (fun _ => 1.33) f_grid, map (fun _ => 0) f_grid)) by reflexivity.
  assert (Hlen : length (map (fun _ : R => 1.33) f_grid) = length (map (fun _ : R => 0) f_grid))
    by (rewrite !length_map; reflexivity).
  split; [exact Href|]. split; [exact Hlen|].
  exact (proj1 (proj2 (@refractive_index_parts Samples.unstable_solver _ _ Href Hlen))).
Defined.

End PlotFacts.
